(** * quickopds: the grouping-and-merging engine of the OPDS feed generator

    A shallow embedding of [src/__init__.py] and the properties of its
    feed construction.

    Conventions of the embedding.
    - A Python [str] is a [string] holding its UTF-8 bytes.  Every
      literal of the program is ASCII, so [endswith], slicing by the
      length of a literal, [in] and the code-point order used by [max]
      and [sorted] coincide with their byte-wise versions.
    - A Python dict used as a map is an association list in insertion
      order ([dict]); a missing key on a subscript read is [None] in the
      error monad ([KeyError]).
    - A node of the document (a dict with the keys NAME, NAMESPACE,
      CHILDREN and attribute keys) is a [Dict] with one field for each
      of the three special keys and the remaining keys, in insertion
      order, as [attribs]; this is the split [dict_to_xml] performs.
    - [print] appends a line to an output log. *)

From Stdlib Require Import List String Ascii ZArith Bool Arith Lia Permutation.
From Stdlib Require Import NArith.
Import ListNotations.
Open Scope string_scope.

(** ** Strings *)

Module Str.

Fixpoint take (n : nat) (s : string) : string :=
  match n, s with
  | S n', String c s' => String c (take n' s')
  | _, _ => EmptyString
  end.

Fixpoint drop (n : nat) (s : string) : string :=
  match n, s with
  | S n', String _ s' => drop n' s'
  | _, _ => s
  end.

(** [s.startswith(p)] *)
Fixpoint startswith (s p : string) : bool :=
  match p, s with
  | EmptyString, _ => true
  | String a p', String b s' => Ascii.eqb a b && startswith s' p'
  | String _ _, EmptyString => false
  end.

(** [s.endswith(e)] *)
Definition endswith (s e : string) : bool :=
  (length e <=? length s)%nat && String.eqb (drop (length s - length e) s) e.

(** [s[: -n]] for [n >= 0]: the stop index [-n] counts from the end
    when [n > 0], and [-0] is plain [0]. *)
Definition slice_to_neg (s : string) (n : nat) : string :=
  match n with
  | O => EmptyString
  | S _ => take (length s - n) s
  end.

(** [p in s] *)
Fixpoint contains (p s : string) : bool :=
  startswith s p ||
  match s with
  | EmptyString => false
  | String _ s' => contains p s'
  end.

(** [s.find(c)] for a one-character [c] *)
Fixpoint find_char (c : ascii) (s : string) : option nat :=
  match s with
  | EmptyString => None
  | String a s' =>
      if Ascii.eqb a c then Some O
      else match find_char c s' with
           | Some i => Some (S i)
           | None => None
           end
  end.

Definition is_upper (c : ascii) : bool :=
  let n := nat_of_ascii c in (65 <=? n)%nat && (n <=? 90)%nat.
Definition is_lower (c : ascii) : bool :=
  let n := nat_of_ascii c in (97 <=? n)%nat && (n <=? 122)%nat.
Definition is_digit (c : ascii) : bool :=
  let n := nat_of_ascii c in (48 <=? n)%nat && (n <=? 57)%nat.
Definition is_alpha (c : ascii) : bool := is_upper c || is_lower c.
Definition is_alnum (c : ascii) : bool := is_alpha c || is_digit c.

Definition lower_char (c : ascii) : ascii :=
  if is_upper c then ascii_of_nat (nat_of_ascii c + 32) else c.

(** [s.lower()], on the ASCII letters.  No character outside ASCII
    lowers to one of the letters of ".pdf" and ".epub", the only
    strings the program compares a lowered name with. *)
Fixpoint lower (s : string) : string :=
  match s with
  | EmptyString => EmptyString
  | String c s' => String (lower_char c) (lower s')
  end.

Fixpoint forallb (p : ascii -> bool) (s : string) : bool :=
  match s with
  | EmptyString => true
  | String c s' => p c && forallb p s'
  end.

(** Python's [max(a, b)] on two strings: the first argument unless the
    second is strictly greater. *)
Definition max (a b : string) : string :=
  if String.ltb a b then b else a.

End Str.

(** ** Python dicts as insertion-ordered association lists *)

Section Dict.
Context {V : Type}.

Definition dict := list (string * V).

(** [d[k]] read; [None] stands for [KeyError] *)
Fixpoint dict_get (d : dict) (k : string) : option V :=
  match d with
  | [] => None
  | (k', v) :: d' => if String.eqb k' k then Some v else dict_get d' k
  end.

(** [k in d] *)
Definition dict_mem (d : dict) (k : string) : bool :=
  match dict_get d k with Some _ => true | None => false end.

(** [d[k] = v]: an existing key keeps its position, a new key goes last *)
Fixpoint dict_set (d : dict) (k : string) (v : V) : dict :=
  match d with
  | [] => [(k, v)]
  | (k', v') :: d' =>
      if String.eqb k' k then (k', v) :: d' else (k', v') :: dict_set d' k v
  end.

Definition dict_keys (d : dict) : list string := map fst d.
Definition dict_values (d : dict) : list V := map snd d.

(** [a | b]: the keys of [a] in order (with [b]'s value where [b] has
    the key), then the keys only [b] has *)
Definition dict_or (a b : dict) : dict :=
  fold_left (fun acc kv => dict_set acc (fst kv) (snd kv)) b a.

End Dict.
Arguments dict : clear implicits.

(** ** The error monad of the subscript reads *)

Definition bind {A B : Type} (m : option A) (k : A -> option B) : option B :=
  match m with
  | Some a => k a
  | None => None
  end.

Notation "x <- m ;; k" := (bind m (fun x => k))
  (at level 61, m at next level, right associativity).

(** ** Document nodes *)

(** A child of a node is a string or a nested dict.  [children = None]
    is a dict without the CHILDREN key. *)
#[warnings="-register-all"]
Inductive item : Type :=
| Str (text : string)
| Dict (NAME : string)
       (NAMESPACE : option (list (option string * string)))
       (attribs : list (string * string))
       (CHILDREN : option (list item)).

Definition is_str (x : item) : bool :=
  match x with Str _ => true | Dict _ _ _ _ => false end.

Definition is_dict (x : item) : bool := negb (is_str x).

(** The invariant of the data model: the CHILDREN of a node are all
    literal text or all nested nodes, at every depth. *)
Fixpoint exclusive (x : item) : bool :=
  match x with
  | Str _ => true
  | Dict _ _ _ None => true
  | Dict _ _ _ (Some cs) =>
      (List.forallb is_str cs || List.forallb is_dict cs)
      && List.forallb exclusive cs
  end.

(** [list.append(x)] and [list.insert(i, x)] (for [i >= 0]; an index
    past the end inserts at the end) *)
Definition list_append {A : Type} (l : list A) (x : A) : list A := l ++ [x].
Definition list_insert {A : Type} (l : list A) (i : nat) (x : A) : list A :=
  firstn i l ++ x :: skipn i l.

(** [e[CHILDREN]] read, [KeyError] when the dict has no CHILDREN (or is
    no dict) *)
Definition get_CHILDREN (e : item) : option (list item) :=
  match e with
  | Dict _ _ _ (Some cs) => Some cs
  | _ => None
  end.

Definition set_CHILDREN (e : item) (cs : list item) : item :=
  match e with
  | Dict n ns a _ => Dict n ns a (Some cs)
  | Str t => Str t
  end.

(** ** Constants *)

Definition ACQUISITION := "http://opds-spec.org/acquisition".
Definition IMAGE := "http://opds-spec.org/image".

Definition FEED_FILENAME := "index.xml".

(** A value of FORMATS: the attribute keys in order, and CHILDREN *)
Record attributes : Type := mkAttributes {
  attr_items : list (string * string);
  attr_CHILDREN : option (list item)
}.

Definition fmt_html : attributes :=
  mkAttributes [("title", "html"); ("type", "text/html"); ("rel", ACQUISITION)]
               (Some [Str "Read directly in the browser"]).

Definition fmt_jpg : attributes :=
  mkAttributes [("type", "image/jpeg"); ("rel", IMAGE)] None.

(** FORMATS in the insertion order of the dict, which is the order
    [FORMATS.items()] iterates in. *)
Definition FORMATS : list (string * attributes) :=
  [ ("_advanced.epub",
     mkAttributes [("title", "Advanced epub"); ("type", "application/epub+zip");
                   ("rel", ACQUISITION)]
       (Some [Str "An advanced format that uses the latest technology not yet fully supported by most ereaders"]));
    (".kepub.epub",
     mkAttributes [("title", "kepub"); ("type", "application/kepub+zip");
                   ("rel", ACQUISITION)]
       (Some [Str "Kobo devices and apps"]));
    (".epub",
     mkAttributes [("title", "Compatible epub"); ("type", "application/epub+zip");
                   ("rel", ACQUISITION)]
       (Some [Str "All devices and apps except Kindles and Kobos"]));
    (".azw3",
     mkAttributes [("title", "azw3"); ("type", "application/x-mobipocket-ebook");
                   ("rel", ACQUISITION)]
       (Some [Str "Kindle devices and apps"]));
    ("_cropped.pdf",
     mkAttributes [("title", "Cropped pdf"); ("type", "application/pdf");
                   ("rel", ACQUISITION)]
       (Some [Str "Fixed page layout cropped tightly to content"]));
    (".pdf",
     mkAttributes [("title", "pdf"); ("type", "application/pdf");
                   ("rel", ACQUISITION)]
       (Some [Str "Fixed page layout"]));
    (".html", fmt_html);
    (".txt",
     mkAttributes [("title", "txt"); ("type", "text/plain"); ("rel", ACQUISITION)]
       (Some [Str "Plain text with no formatting"]));
    (".jpg", fmt_jpg);
    (".png", mkAttributes [("type", "image/png"); ("rel", IMAGE)] None);
    (".gif", mkAttributes [("type", "image/gif"); ("rel", IMAGE)] None);
    (".htm", fmt_html);
    (".jpeg", fmt_jpg);
    ("", mkAttributes [("type", "unknown")] None) ].

(** The registered suffixes: the keys of FORMATS other than the
    sentinel [""] of the unknown type. *)
Definition registered (ending : string) : Prop :=
  In ending (map fst FORMATS) /\ ending <> "".

(** ** Small helpers of the program *)

(** [text_item(name, text)] *)
Definition text_item (name text : string) : item :=
  Dict name None [] (Some [Str text]).

(** ** Library functions the program calls *)

(** [urllib.parse.quote] with its default [safe="/"]: the bytes of the
    UTF-8 encoding that are letters, digits or one of [_.-~/] are kept,
    every other byte becomes [%XX] in upper-case hexadecimal. *)
Module Urllib.

Definition always_safe (c : ascii) : bool :=
  Str.is_alnum c
  || Ascii.eqb c "_" || Ascii.eqb c "." || Ascii.eqb c "-" || Ascii.eqb c "~".

Definition hex_digit (n : nat) : ascii :=
  match String.get n "0123456789ABCDEF" with
  | Some c => c
  | None => "0"%char
  end.

Definition quote_byte (c : ascii) : string :=
  if always_safe c || Ascii.eqb c "/" then String c EmptyString
  else
    let n := nat_of_ascii c in
    String "%" (String (hex_digit (n / 16)) (String (hex_digit (n mod 16)) EmptyString)).

Fixpoint quote (s : string) : string :=
  match s with
  | EmptyString => EmptyString
  | String c s' => quote_byte c ++ quote s'
  end.

End Urllib.

(** [datetime.fromtimestamp(t, UTC).isoformat()] on a modification time
    given in microseconds since the epoch (the resolution [fromtimestamp]
    rounds to), for the years 1 to 9999 that [datetime] represents. *)
Module Datetime.
Open Scope Z_scope.

Definition DI400Y : Z := 146097.
Definition DI100Y : Z := 36524.
Definition DI4Y : Z := 1461.

Definition DAYS_IN_MONTH (m : Z) : Z :=
  nth (Z.to_nat m) [-1; 31; 28; 31; 30; 31; 30; 31; 31; 30; 31; 30; 31] 0.

Definition DAYS_BEFORE_MONTH (m : Z) : Z :=
  nth (Z.to_nat m) [-1; 0; 31; 59; 90; 120; 151; 181; 212; 243; 273; 304; 334] 0.

Definition b2z (b : bool) : Z := if b then 1 else 0.

(** [_ord2ymd]: ordinal (1 is 0001-01-01) to year, month, day *)
Definition ord2ymd (ordinal : Z) : Z * Z * Z :=
  let n := ordinal - 1 in
  let n400 := n / DI400Y in
  let n := n mod DI400Y in
  let year := n400 * 400 + 1 in
  let n100 := n / DI100Y in
  let n := n mod DI100Y in
  let n4 := n / DI4Y in
  let n := n mod DI4Y in
  let n1 := n / 365 in
  let n := n mod 365 in
  let year := year + n100 * 100 + n4 * 4 + n1 in
  if (n1 =? 4) || (n100 =? 4) then (year - 1, 12, 31)
  else
    let leapyear := (n1 =? 3) && (negb (n4 =? 24) || (n100 =? 3)) in
    let month := Z.shiftr (n + 50) 5 in
    let preceding := DAYS_BEFORE_MONTH month + b2z ((month >? 2) && leapyear) in
    if preceding >? n then
      let month := month - 1 in
      let preceding :=
        preceding - (DAYS_IN_MONTH month + b2z ((month =? 2) && leapyear)) in
      (year, month, n - preceding + 1)
    else (year, month, n - preceding + 1).

(** The ordinal of 1970-01-01 *)
Definition EPOCH_ORDINAL : Z := 719163.

Definition digit (n : Z) : ascii := ascii_of_nat (48 + Z.to_nat (n mod 10)).

(** [%0wd] for [0 <= n < 10^w] *)
Fixpoint zero_padded (w : nat) (n : Z) : string :=
  match w with
  | O => EmptyString
  | S w' => (zero_padded w' (n / 10) ++ String (digit n) EmptyString)%string
  end.

Definition isoformat_utc (us : Z) : string :=
  let secs := us / 1000000 in
  let micro := us mod 1000000 in
  let '(y, m, d) := ord2ymd (secs / 86400 + EPOCH_ORDINAL) in
  let sod := secs mod 86400 in
  (zero_padded 4 y ++ "-" ++ zero_padded 2 m ++ "-" ++ zero_padded 2 d
   ++ "T" ++ zero_padded 2 (sod / 3600)
   ++ ":" ++ zero_padded 2 (sod mod 3600 / 60)
   ++ ":" ++ zero_padded 2 (sod mod 60)
   ++ (if Z.eqb micro 0 then "" else "." ++ zero_padded 6 micro)
   ++ "+00:00")%string.

(** [s.replace(old, new)] for a non-empty [old]; [skip] counts the
    characters of a match still to be passed over. *)
Fixpoint replace_from (old new : string) (skip : nat) (s : string) : string :=
  match s with
  | EmptyString => EmptyString
  | String c s' =>
      match skip with
      | S k => replace_from old new k s'
      | O =>
          if Str.startswith s old
          then (new ++ replace_from old new (String.length old - 1) s')%string
          else String c (replace_from old new O s')
      end
  end.

Definition replace (s old new : string) : string := replace_from old new O s.

End Datetime.

(** [html.parser.HTMLParser.feed] as the list of the [handle_data]
    calls it makes, on the fragment of inputs made of character data
    without [&], start tags [<name>] and end tags [</name>] whose name
    is letters and digits and is none of the elements with raw-text
    content.  [None] is an input outside this fragment. *)
Module HTMLParser.

Definition RAW_TEXT_ELEMENTS : list string :=
  ["script"; "style"; "textarea"; "title"; "xmp"; "iframe"; "noembed";
   "noframes"; "plaintext"].

(** the position just after a tag [name>] at the head of [s] *)
Definition simple_tag_end (s : string) : option nat :=
  match s with
  | String c _ =>
      if Str.is_alpha c then
        match Str.find_char ">" s with
        | Some j =>
            let name := Str.take j s in
            if Str.forallb Str.is_alnum name
               && negb (existsb (String.eqb (Str.lower name)) RAW_TEXT_ELEMENTS)
            then Some (S j) else None
        | None => None
        end
      else None
  | EmptyString => None
  end.

(** [goahead]: alternate between a run of data up to the next [<]
    and the tag that starts there. *)
Fixpoint goahead (fuel : nat) (rawdata : string) : option (list string) :=
  match fuel with
  | O => None
  | S fuel' =>
      match rawdata with
      | EmptyString => Some []
      | String c rest =>
          if Ascii.eqb c "<" then
            let body := if Str.startswith rest "/" then Str.drop 1 rest else rest in
            k <- simple_tag_end body ;;
            goahead fuel' (Str.drop k body)
          else
            let j := match Str.find_char "<" rawdata with
                     | Some j => j
                     | None => String.length rawdata
                     end in
            let data := Str.take j rawdata in
            if Str.contains "&" data then None
            else
              calls <- goahead fuel' (Str.drop j rawdata) ;;
              Some (data :: calls)
      end
  end.

Definition feed (data : string) : option (list string) :=
  goahead (S (String.length data)) data.

End HTMLParser.

(** ** The files of the directory *)

(** What the program reads of a directory entry: its name, whether it is
    a regular file, its modification time in microseconds since the
    epoch, the document-information dictionary [PdfReader] gives for it
    (values already passed through [str]) and, for the keys "title",
    "creator" and "description", the text of the first [dc:] element of
    that name in its package document (no key when there is no such
    element or it holds no text). *)
Record file : Type := mkFile {
  f_name : string;
  f_is_file : bool;
  f_mtime : Z;
  f_pdf_info : dict string;
  f_opf_dc : dict string
}.

(** [timestamp(f)] *)
Definition timestamp (f : file) : string :=
  Datetime.replace (Datetime.isoformat_utc (f_mtime f)) "+00:00" "Z".

(** [sorted(directory.iterdir())]: paths of one directory compare by
    their names; a stable insertion sort. *)
Fixpoint sorted_insert (f : file) (l : list file) : list file :=
  match l with
  | [] => [f]
  | g :: l' =>
      if String.ltb (f_name g) (f_name f) then g :: sorted_insert f l'
      else f :: l
  end.

Definition sorted (l : list file) : list file :=
  fold_right sorted_insert [] l.

(** ** Metadata extraction *)

(** White space as [str.strip] sees it, on the UTF-8 bytes of the text.
    One byte: the characters 9 to 13 and 28 to 32. *)
Definition is_space (c : ascii) : bool :=
  let n := nat_of_ascii c in
  ((9 <=? n)%nat && (n <=? 13)%nat) || ((28 <=? n)%nat && (n <=? 32)%nat).

(** Two bytes: U+0085 and U+00A0 *)
Definition is_space2 (c1 c2 : ascii) : bool :=
  (nat_of_ascii c1 =? 194)%nat
  && ((nat_of_ascii c2 =? 133)%nat || (nat_of_ascii c2 =? 160)%nat).

(** Three bytes: U+1680, U+2000 to U+200A, U+2028, U+2029, U+202F,
    U+205F and U+3000 *)
Definition is_space3 (c1 c2 c3 : ascii) : bool :=
  let a := nat_of_ascii c1 in
  let b := nat_of_ascii c2 in
  let c := nat_of_ascii c3 in
  ((a =? 225)%nat && (b =? 154)%nat && (c =? 128)%nat)
  || ((a =? 226)%nat && (b =? 128)%nat
      && (((128 <=? c)%nat && (c <=? 138)%nat)
          || (c =? 168)%nat || (c =? 169)%nat || (c =? 175)%nat))
  || ((a =? 226)%nat && (b =? 129)%nat && (c =? 159)%nat)
  || ((a =? 227)%nat && (b =? 128)%nat && (c =? 128)%nat).

(** [s.lstrip()] *)
Fixpoint lstrip (s : string) : string :=
  match s with
  | String c1 s1 =>
      if is_space c1 then lstrip s1
      else
        match s1 with
        | String c2 s2 =>
            if is_space2 c1 c2 then lstrip s2
            else
              match s2 with
              | String c3 s3 => if is_space3 c1 c2 c3 then lstrip s3 else s
              | EmptyString => s
              end
        | EmptyString => s
        end
  | EmptyString => EmptyString
  end.

(** A text of white space only ([s.isspace()], or [s] empty) *)
Fixpoint white (s : string) : bool :=
  match s with
  | String c1 s1 =>
      if is_space c1 then white s1
      else
        match s1 with
        | String c2 s2 =>
            if is_space2 c1 c2 then white s2
            else
              match s2 with
              | String c3 s3 => is_space3 c1 c2 c3 && white s3
              | EmptyString => false
              end
        | EmptyString => false
        end
  | EmptyString => true
  end.

(** [s.rstrip()]: what comes before the white space that ends [s] *)
Fixpoint rstrip (s : string) : string :=
  match s with
  | String c s' => if white s then EmptyString else String c (rstrip s')
  | EmptyString => EmptyString
  end.

(** [s.strip()] *)
Definition strip (s : string) : string := rstrip (lstrip s).

(** [get_pdf_metadata] *)
Definition get_pdf_metadata (f : file) : dict string :=
  fold_left
    (fun meta kt =>
       match dict_get (f_pdf_info f) (fst kt) with
       | Some v => dict_set meta (snd kt) v
       | None => meta
       end)
    [("/Author", "author"); ("/Title", "title")] [].

(** [get_epub_metadata] *)
Definition get_epub_metadata (f : file) : dict string :=
  fold_left
    (fun meta kt =>
       match dict_get (f_opf_dc f) (fst kt) with
       | Some text =>
           if String.eqb text "" then meta else dict_set meta (snd kt) (strip text)
       | None => meta
       end)
    [("title", "title"); ("creator", "author"); ("description", "content")] [].

(** The [if]/[elif]/[else] on the lowered name that picks the extractor *)
Definition extract_metadata (f : file) : dict string :=
  if Str.endswith (Str.lower (f_name f)) ".pdf" then get_pdf_metadata f
  else if Str.endswith (Str.lower (f_name f)) ".epub" then get_epub_metadata f
  else [].

(** ** Classification *)

(** The [for ending, attributes in FORMATS.items()] loop with its
    [break]: the first ending the name ends with, its attributes and
    the stem.  [None] is the loop running to its end without a match,
    which [classify_total] excludes for FORMATS. *)
Fixpoint classify_in (formats : list (string * attributes)) (name : string)
  : option (string * attributes * string) :=
  match formats with
  | [] => None
  | (ending, attributes) :: rest =>
      if Str.endswith name ending
      then Some (ending, attributes, Str.slice_to_neg name (String.length ending))
      else classify_in rest name
  end.

Definition classify (name : string) : option (string * attributes * string) :=
  classify_in FORMATS name.

(** ** The feed builder *)

(** The accumulators of [make_tree] and the lines printed so far *)
Record state : Type := mkState {
  entries : dict item;
  updated : dict string;
  titles : dict string;
  authors : dict string;
  contents : dict string;
  latest : string;
  printed : list string
}.

Definition initial_state : state := mkState [] [] [] [] [] "" [].

(** The namespace map of the feed element *)
Definition FEED_NAMESPACE : list (option string * string) :=
  [ (None, "http://www.w3.org/2005/Atom");
    (Some "opds", "http://opds-spec.org/2010/catalog");
    (Some "dcterms", "http://purl.org/dc/terms/") ].

(** [{NAME: "link", "href": url + quote(f.name)} | attributes] *)
Definition link_item (url : string) (f : file) (a : attributes) : item :=
  Dict "link" None
       (dict_or [("href", url ++ Urllib.quote (f_name f))] (attr_items a))
       (attr_CHILDREN a).

(** [if key in meta: d[stem] = meta[key]] *)
Definition merge_key (meta : dict string) (key : string)
           (d : dict string) (stem : string) : dict string :=
  match dict_get meta key with
  | Some v => dict_set d stem v
  | None => d
  end.

(** [entries[stem][CHILDREN].append(x)], mutating the list the entry holds *)
Definition append_child (es : dict item) (stem : string) (x : item)
  : option (dict item) :=
  e <- dict_get es stem ;;
  cs <- get_CHILDREN e ;;
  Some (dict_set es stem (set_CHILDREN e (list_append cs x))).

(** [entries[stem][CHILDREN].insert(i, x)] *)
Definition insert_child (es : dict item) (stem : string) (i : nat) (x : item)
  : option (dict item) :=
  e <- dict_get es stem ;;
  cs <- get_CHILDREN e ;;
  Some (dict_set es stem (set_CHILDREN e (list_insert cs i x))).

(** The body of the loop over the directory, for one path *)
Definition loop_body (url : string) (st : state) (f : file) : option state :=
  if negb (f_is_file f) then Some st
  else
    c <- classify (f_name f) ;;
    let '(ending, attributes, stem) := c in
    if String.eqb ending "" then
      Some (mkState (entries st) (updated st) (titles st) (authors st)
                    (contents st) (latest st)
                    (printed st ++ ["Unknown filetype " ++ f_name f]))
    else
      let st :=
        if negb (dict_mem (entries st) stem) then
          mkState
            (dict_set (entries st) stem
               (Dict "entry" None []
                  (Some [text_item "id" (url ++ Urllib.quote stem)])))
            (dict_set (updated st) stem "")
            (dict_set (titles st) stem stem)
            (dict_set (authors st) stem "Unknown")
            (dict_set (contents st) stem "")
            (latest st) (printed st)
        else st in
      es <- append_child (entries st) stem (link_item url f attributes) ;;
      u <- dict_get (updated st) stem ;;
      let upd := dict_set (updated st) stem (Str.max u (timestamp f)) in
      let lat := Str.max (latest st) (timestamp f) in
      let meta := extract_metadata f in
      Some (mkState es upd
                    (merge_key meta "title" (titles st) stem)
                    (merge_key meta "author" (authors st) stem)
                    (merge_key meta "content" (contents st) stem)
                    lat (printed st)).

(** [for f in files: body] *)
Fixpoint for_files (url : string) (files : list file) (st : state) : option state :=
  match files with
  | [] => Some st
  | f :: rest =>
      st' <- loop_body url st f ;;
      for_files url rest st'
  end.

(** [for stem in d: entries[stem][CHILDREN].insert(i, make(d[stem]))]
    over the items of [d] in its order *)
Fixpoint for_insert (d : dict string) (i : nat) (make : string -> item)
         (es : dict item) : option (dict item) :=
  match d with
  | [] => Some es
  | (stem, v) :: rest =>
      es' <- insert_child es stem i (make v) ;;
      for_insert rest i make es'
  end.

Section Builder.

(** The [handle_data] calls [HTMLParser.feed] makes on a text *)
Variable parser_feed : string -> list string.

(** [HTMLFilter]: [text] starts empty and [handle_data] appends to it *)
Definition HTMLFilter_feed (text : string) : string :=
  fold_left (fun acc data => acc ++ data) (parser_feed text) "".

(** [filter_html] *)
Definition filter_html (text : string) : string :=
  if Str.contains "<" text || Str.contains "&lt;" text
  then HTMLFilter_feed text
  else text.

(** The four loops that put the final metadata into each entry *)
Definition put_metadata (st : state) : option (dict item) :=
  es <- for_insert (updated st) 1 (text_item "updated") (entries st) ;;
  es <- for_insert (titles st) 2 (text_item "title") es ;;
  es <- for_insert (authors st) 3
          (fun a => Dict "author" None [] (Some [text_item "name" a])) es ;;
  for_insert (contents st) 4
    (fun c => Dict "content" None [("type", "text")] (Some [Str (filter_html c)]))
    es.

(** [make_tree] from the sorted listing on: the loop over the files,
    the metadata of the entries and the feed node.  The result is the
    tree and the lines printed. *)
Definition build_feed (files : list file) (url : string)
  : option (item * list string) :=
  st <- for_files url files initial_state ;;
  es <- put_metadata st ;;
  let children :=
    List.app
      [ text_item "title" "Michael Young's ebooks";
        text_item "id" (url ++ FEED_FILENAME);
        text_item "updated" (latest st);
        Dict "author" None [] (Some [text_item "name" "Michael Young"]);
        Dict "link" None
             [("rel", "self"); ("type", "application/atom+xml"); ("href", url)]
             None ]
      (dict_values es) in
  Some (Dict "feed" (Some FEED_NAMESPACE) [] (Some children), printed st).

(** [make_tree(directory, url)], [directory] being the entries of the
    directory in the order [iterdir] yields them *)
Definition make_tree (directory : list file) (url : string)
  : option (item * list string) :=
  build_feed (sorted directory) url.

End Builder.

(** ** Views used to state the properties *)

(** The three variables the classification loop leaves behind *)
Definition ending_of (name : string) : string :=
  match classify name with Some (e, _, _) => e | None => "" end.

Definition attributes_of (name : string) : attributes :=
  match classify name with Some (_, a, _) => a | None => mkAttributes [] None end.

Definition stem_of (name : string) : string :=
  match classify name with Some (_, _, s) => s | None => "" end.

(** The order of a format table tries the more specific ending first:
    no ending is a proper suffix of one that comes after it. *)
Fixpoint most_specific_first (formats : list (string * attributes)) : bool :=
  match formats with
  | [] => true
  | (e, _) :: rest =>
      List.forallb
        (fun y => negb ((String.length e <? String.length (fst y))%nat
                        && Str.endswith (fst y) e))
        rest
      && most_specific_first rest
  end.

(** A regular file whose name ends with a registered suffix *)
Definition recognised (f : file) : bool :=
  f_is_file f && negb (String.eqb (ending_of (f_name f)) "").

(** A regular file whose name ends with no registered suffix *)
Definition unrecognised (f : file) : bool :=
  f_is_file f && String.eqb (ending_of (f_name f)) "".

Definition mem (s : string) (l : list string) : bool :=
  existsb (String.eqb s) l.

(** The files of the book [stem], in processing order *)
Definition group (stem : string) (files : list file) : list file :=
  filter (fun f => recognised f && String.eqb (stem_of (f_name f)) stem) files.

(** The stems of the recognised files in the order each is first seen *)
Definition stems_seen (files : list file) : list string :=
  fold_left
    (fun seen f =>
       if recognised f && negb (mem (stem_of (f_name f)) seen)
       then (seen ++ [stem_of (f_name f)])%list else seen)
    files [].

(** The greatest rendered timestamp of some files, in the order of
    [max] on strings; empty for no file *)
Definition max_timestamp (files : list file) : string :=
  fold_left (fun m f => Str.max m (timestamp f)) files "".

(** Last write wins: the value the last file that has [key] in its
    metadata gives, [default] when no file has it *)
Definition last_write (key default : string) (files : list file) : string :=
  match find (fun f => dict_mem (extract_metadata f) key) (rev files) with
  | Some f =>
      match dict_get (extract_metadata f) key with
      | Some v => v
      | None => default
      end
  | None => default
  end.

(** The link of a file *)
Definition link_of (url : string) (f : file) : item :=
  link_item url f (attributes_of (f_name f)).

Definition links_of (url stem : string) (files : list file) : list item :=
  map (link_of url) (group stem files).

(** A listing in ascending order of names *)
Definition ascending (l : list file) : Prop :=
  ForallOrdPairs (fun f g => String.leb (f_name f) (f_name g) = true) l.

(** The line printed for a file of unknown type *)
Definition diagnostic (f : file) : string := "Unknown filetype " ++ f_name f.

(** A dict given by its keys and a function for the values *)
Definition tabulate {V : Type} (g : string -> V) (ks : list string) : dict V :=
  map (fun s => (s, g s)) ks.

(** The value of a metadata field after the merges of some files, in
    the way the loop computes it *)
Definition merged (key default : string) (files : list file) : string :=
  fold_left
    (fun v f =>
       match dict_get (extract_metadata f) key with
       | Some x => x
       | None => v
       end)
    files default.

(** An entry as the loop leaves it: the id and the links *)
Definition entry_in_loop (url : string) (files : list file) (stem : string) : item :=
  Dict "entry" None []
       (Some (text_item "id" (url ++ Urllib.quote stem) :: links_of url stem files)).

(** The accumulators over the keys [ks] after the files [files] *)
Definition state_on (url : string) (ks : list string) (files : list file) : state :=
  mkState
    (tabulate (entry_in_loop url files) ks)
    (tabulate (fun s => max_timestamp (group s files)) ks)
    (tabulate (fun s => merged "title" s (group s files)) ks)
    (tabulate (fun s => merged "author" "Unknown" (group s files)) ks)
    (tabulate (fun s => merged "content" "" (group s files)) ks)
    (max_timestamp (filter recognised files))
    (map diagnostic (filter unrecognised files)).

Definition state_of (url : string) (files : list file) : state :=
  state_on url (stems_seen files) files.

(** The five metadata children of an entry *)
Definition entry_head (parser_feed : string -> list string)
           (url stem : string) (files : list file) : list item :=
  let g := group stem files in
  [ text_item "id" (url ++ Urllib.quote stem);
    text_item "updated" (max_timestamp g);
    text_item "title" (last_write "title" stem g);
    Dict "author" None [] (Some [text_item "name" (last_write "author" "Unknown" g)]);
    Dict "content" None [("type", "text")]
         (Some [Str (filter_html parser_feed (last_write "content" "" g))]) ].

Definition entry_of (parser_feed : string -> list string)
           (url : string) (files : list file) (stem : string) : item :=
  Dict "entry" None []
       (Some (List.app (entry_head parser_feed url stem files)
                       (links_of url stem files))).

(** The five children of the feed that come before the entries *)
Definition feed_head (url latest : string) : list item :=
  [ text_item "title" "Michael Young's ebooks";
    text_item "id" (url ++ FEED_FILENAME);
    text_item "updated" latest;
    Dict "author" None [] (Some [text_item "name" "Michael Young"]);
    Dict "link" None
         [("rel", "self"); ("type", "application/atom+xml"); ("href", url)]
         None ].

Definition feed_node (url latest : string) (es : list item) : item :=
  Dict "feed" (Some FEED_NAMESPACE) [] (Some (List.app (feed_head url latest) es)).

(** A parser that follows [HTMLParser.feed] wherever that is defined *)
Definition agrees_with_HTMLParser (parser_feed : string -> list string) : Prop :=
  forall text calls, HTMLParser.feed text = Some calls -> parser_feed text = calls.

Definition parser_feed0 (text : string) : list string :=
  match HTMLParser.feed text with
  | Some calls => calls
  | None => []
  end.

(** Chronological order of two files *)
Definition modified_before (f g : file) : Prop := (f_mtime f < f_mtime g)%Z.

(** ** Views of the date arithmetic *)

Section CalendarViews.
Local Open Scope Z_scope.

(** The month and day [_ord2ymd] computes from the leap-year flag and
    the index of the day in its year *)
Definition month_day (leapyear : bool) (n : Z) : Z * Z :=
  let month := Z.shiftr (n + 50) 5 in
  let preceding :=
    Datetime.DAYS_BEFORE_MONTH month + Datetime.b2z ((month >? 2) && leapyear) in
  if preceding >? n then
    let month := month - 1 in
    let preceding :=
      preceding - (Datetime.DAYS_IN_MONTH month + Datetime.b2z ((month =? 2) && leapyear)) in
    (month, n - preceding + 1)
  else (month, n - preceding + 1).

(** The year, the index of the day in the year and the leap-year flag
    [_ord2ymd] computes; its early return is the last day of a leap
    year. *)
Definition year_doy (ordinal : Z) : Z * Z * bool :=
  let n := ordinal - 1 in
  let n400 := n / 146097 in
  let n := n mod 146097 in
  let n100 := n / 36524 in
  let n := n mod 36524 in
  let n4 := n / 1461 in
  let n := n mod 1461 in
  let n1 := n / 365 in
  let n := n mod 365 in
  let year := n400 * 400 + 1 + n100 * 100 + n4 * 4 + n1 in
  if (n1 =? 4) || (n100 =? 4) then (year - 1, 365, true)
  else (year, n, (n1 =? 3) && (negb (n4 =? 24) || (n100 =? 3))).

Definition is_leap (y : Z) : bool :=
  (y mod 4 =? 0) && (negb (y mod 100 =? 0) || (y mod 400 =? 0)).

Definition md_key (md : Z * Z) : Z := fst md * 32 + snd md.

Definition md_ok (md : Z * Z) : bool :=
  (1 <=? fst md) && (fst md <=? 12) && (1 <=? snd md) && (snd md <=? 31).

(** Every day of a year has a month from 1 to 12 and a day from 1 to
    31, after those of the day before. *)
Definition month_day_checked (leap : bool) : bool :=
  forallb
    (fun i =>
       let k := Z.of_nat i in
       md_ok (month_day leap k)
       && ((k =? 0) || (md_key (month_day leap (k - 1)) <? md_key (month_day leap k))))
    (seq 0 (365 + (if leap then 1 else 0))).

(** The modification times [datetime] can hold: the years 1 to 9999 *)
Definition MIN_MTIME : Z := -62135596800000000.
Definition MAX_MTIME : Z := 253402300799999999.

Definition representable (f : file) : Prop :=
  MIN_MTIME <= f_mtime f <= MAX_MTIME.

(** A modification time on a whole second *)
Definition whole_second (f : file) : bool := f_mtime f mod 1000000 =? 0.

(** The fraction [isoformat] writes: none for zero microseconds *)
Definition fraction (micro : Z) : string :=
  if micro =? 0 then ""%string
  else ("." ++ Datetime.zero_padded 6 micro)%string.

Definition render (y m d hh mm ss : Z) (tail : string) : string :=
  (Datetime.zero_padded 4 y ++ "-" ++ Datetime.zero_padded 2 m ++ "-"
   ++ Datetime.zero_padded 2 d ++ "T" ++ Datetime.zero_padded 2 hh ++ ":"
   ++ Datetime.zero_padded 2 mm ++ ":" ++ Datetime.zero_padded 2 ss ++ tail)%string.

Definition no_plus (s : string) : bool :=
  Str.forallb (fun c => negb (Ascii.eqb c "+")) s.

End CalendarViews.

(** ** Views of the percent-encoding *)

Definition hex_value (c : ascii) : nat :=
  match Str.find_char c "0123456789ABCDEF" with
  | Some i => i
  | None => O
  end.

(** The decoding of [%XX] escapes, to state that [quote] loses nothing *)
Fixpoint unquote (s : string) : string :=
  match s with
  | EmptyString => EmptyString
  | String c rest =>
      if Ascii.eqb c "%" then
        match rest with
        | String h (String l rest') =>
            String (ascii_of_nat (16 * hex_value h + hex_value l)) (unquote rest')
        | _ => String c (unquote rest)
        end
      else String c (unquote rest)
  end.

(** ** The XML elements of [dict_to_xml] *)

(** An [etree] element: tag, attributes, namespace map, text and child
    elements *)
#[warnings="-register-all"]
Inductive Element : Type :=
| mkElement (tag : string)
            (attrib : list (string * string))
            (nsmap : list (option string * string))
            (text : option string)
            (elements : list Element).

Definition element_tag (e : Element) : string :=
  match e with mkElement t _ _ _ _ => t end.
Definition element_attrib (e : Element) : list (string * string) :=
  match e with mkElement _ a _ _ _ => a end.
Definition element_text (e : Element) : option string :=
  match e with mkElement _ _ _ t _ => t end.
Definition element_children (e : Element) : list Element :=
  match e with mkElement _ _ _ _ es => es end.
Definition element_nsmap (e : Element) : list (option string * string) :=
  match e with mkElement _ _ m _ _ => m end.

Section Xml.

(** The checks of lxml, which raise [ValueError] when they fail:
    [etree.Element] on the tag, the attributes and the namespace map,
    and the assignment to [element.text] on the text. *)
Variable element_ok :
  string -> list (string * string) -> list (option string * string) -> bool.
Variable text_ok : string -> bool.

Section ForChildren.
Variable convert : item -> option Element.

(** The loop of [dict_to_xml] over the children: a dict is converted
    and appended, a string becomes the text of the element, replacing
    the text set before. *)
Fixpoint for_children (cs : list item) (text : option string)
         (elements : list Element) : option (option string * list Element) :=
  match cs with
  | [] => Some (text, elements)
  | child :: rest =>
      match child with
      | Str s =>
          if text_ok s then for_children rest (Some s) elements else None
      | Dict _ _ _ _ =>
          e <- convert child ;;
          for_children rest text (elements ++ [e])
      end
  end.

End ForChildren.

(** [dict_to_xml]; [None] is an exception: the call on something that
    is no dict, or a name or a text that lxml refuses. *)
Fixpoint dict_to_xml (d : item) : option Element :=
  match d with
  | Str _ => None
  | Dict name namespace attribs children =>
      let nsmap := match namespace with Some m => m | None => [] end in
      if element_ok name attribs nsmap then
        match children with
        | Some cs =>
            r <- for_children dict_to_xml cs None [] ;;
            Some (mkElement name attribs nsmap (fst r) (snd r))
        | None => Some (mkElement name attribs nsmap None [])
        end
      else None
  end.

(** Every element and every text of a tree passes the checks. *)
Fixpoint accepted (d : item) : bool :=
  match d with
  | Str s => text_ok s
  | Dict name namespace attribs children =>
      element_ok name attribs (match namespace with Some m => m | None => [] end)
      && match children with
         | Some cs => List.forallb accepted cs
         | None => true
         end
  end.

End Xml.

(** No element has both a text and child elements. *)
Fixpoint no_mixed_content (e : Element) : bool :=
  match e with
  | mkElement _ _ _ text es =>
      match text, es with
      | Some _, _ :: _ => false
      | _, _ => true
      end
      && List.forallb no_mixed_content es
  end.

(** The number of elements of a tree *)
Fixpoint count_elements (e : Element) : nat :=
  match e with
  | mkElement _ _ _ _ es => S (list_sum (map count_elements es))
  end.

(** The number of dicts of a tree *)
Fixpoint count_dicts (d : item) : nat :=
  match d with
  | Str _ => O
  | Dict _ _ _ None => 1
  | Dict _ _ _ (Some cs) => S (list_sum (map count_dicts cs))
  end.

(** What [dict_to_xml] keeps of a dict in the element it returns *)
Definition converted (d : item) (e : Element) : Prop :=
  match d with
  | Str _ => True
  | Dict n ns a ch =>
      let cs := match ch with Some cs => cs | None => [] end in
      element_tag e = n
      /\ element_attrib e = a
      /\ element_nsmap e = match ns with Some m => m | None => [] end
      /\ List.length (element_children e) = List.length (filter is_dict cs)
      /\ (List.forallb is_dict cs = true -> element_text e = None)
      /\ count_elements e = count_dicts d
      /\ (exclusive d = true -> no_mixed_content e = true)
  end.

(** Two checks to run the conversion on examples: a tag of letters
    only, and a text without the control characters below the space
    other than tab, line feed and carriage return. *)
Definition letters_tag (name : string) (attribs : list (string * string))
           (nsmap : list (option string * string)) : bool :=
  negb (String.eqb name "") && Str.forallb Str.is_alpha name.

Definition no_control (s : string) : bool :=
  Str.forallb
    (fun c => let n := nat_of_ascii c in
              (32 <=? n)%nat || (n =? 9)%nat || (n =? 10)%nat || (n =? 13)%nat)
    s.

(** ** Views of the white space *)

(** What follows the white-space character that starts a text *)
Definition head_space (s : string) : option string :=
  match s with
  | String c1 s1 =>
      if is_space c1 then Some s1
      else
        match s1 with
        | String c2 s2 =>
            if is_space2 c1 c2 then Some s2
            else
              match s2 with
              | String c3 s3 => if is_space3 c1 c2 c3 then Some s3 else None
              | EmptyString => None
              end
        | EmptyString => None
        end
  | EmptyString => None
  end.

(** * Properties *)

(** ** Strings *)

Lemma take_drop n s : Str.take n s ++ Str.drop n s = s.
Proof.
  revert s; induction n as [|n IH]; intros [|c s]; simpl; try reflexivity.
  now rewrite IH.
Qed.

Lemma length_app (s t : string) :
  String.length (s ++ t) = String.length s + String.length t.
Proof. induction s as [|c s IH]; simpl; [reflexivity | now rewrite IH]. Qed.

Lemma length_drop n s : String.length (Str.drop n s) = String.length s - n.
Proof.
  revert s; induction n as [|n IH]; intros [|c s]; simpl; auto.
Qed.

Lemma take_app_length p e : Str.take (String.length p) (p ++ e) = p.
Proof. induction p as [|c p IH]; simpl; [now destruct e | now rewrite IH]. Qed.

Lemma drop_app_length p e : Str.drop (String.length p) (p ++ e) = e.
Proof. induction p as [|c p IH]; simpl; [now destruct e | exact IH]. Qed.

Lemma app_empty_r (s : string) : s ++ "" = s.
Proof. induction s as [|c s IH]; simpl; [reflexivity | now rewrite IH]. Qed.

Lemma app_string_assoc (a b c : string) : (a ++ b) ++ c = a ++ (b ++ c).
Proof. induction a as [|x a IH]; simpl; [reflexivity | now rewrite IH]. Qed.

Lemma endswith_app p e : Str.endswith (p ++ e) e = true.
Proof.
  unfold Str.endswith. rewrite length_app.
  replace (String.length p + String.length e - String.length e)
    with (String.length p) by lia.
  rewrite drop_app_length, String.eqb_refl.
  apply andb_true_iff; split; [apply Nat.leb_le; lia | reflexivity].
Qed.

Lemma endswith_inv s e :
  Str.endswith s e = true ->
  s = Str.take (String.length s - String.length e) s ++ e.
Proof.
  unfold Str.endswith. intros H. apply andb_true_iff in H as [_ H].
  apply String.eqb_eq in H.
  rewrite <- (take_drop (String.length s - String.length e) s) at 1.
  now rewrite H.
Qed.

Lemma endswith_empty s : Str.endswith s "" = true.
Proof. rewrite <- (app_empty_r s) at 1. apply endswith_app. Qed.

Lemma endswith_ex s e : Str.endswith s e = true -> exists p, s = p ++ e.
Proof. intros H. eexists. apply endswith_inv, H. Qed.

Lemma drop_drop n m t : Str.drop n (Str.drop m t) = Str.drop (m + n) t.
Proof.
  revert t; induction m as [|m IH]; intros [|c t]; simpl; auto.
  now destruct n.
Qed.

(** Of two suffixes of one string the shorter is a suffix of the longer. *)
Lemma endswith_nested s a b :
  Str.endswith s a = true -> Str.endswith s b = true ->
  String.length a <= String.length b -> Str.endswith b a = true.
Proof.
  intros Ha Hb Hlen.
  apply endswith_ex in Ha as [pa Ha]. apply endswith_ex in Hb as [pb Hb].
  subst s.
  assert (Hl : String.length pa
               = String.length pb + (String.length b - String.length a)).
  { apply (f_equal String.length) in Hb. rewrite !length_app in Hb. lia. }
  assert (Hx : Str.drop (String.length b - String.length a) b = a).
  { rewrite <- (drop_app_length pb b) at 2.
    rewrite <- Hb, drop_drop, <- Hl. apply drop_app_length. }
  rewrite <- (take_drop (String.length b - String.length a) b), Hx.
  apply endswith_app.
Qed.

(** ** Classification *)

Lemma classify_in_sound formats name e a st :
  classify_in formats name = Some (e, a, st) ->
  In (e, a) formats /\ Str.endswith name e = true
  /\ st = Str.slice_to_neg name (String.length e).
Proof.
  induction formats as [|[k v] rest IH]; simpl; [discriminate|].
  destruct (Str.endswith name k) eqn:Hk.
  - intros H; inversion H; subst. auto.
  - intros H. destruct (IH H) as (? & ? & ?). auto.
Qed.

Lemma classify_in_get formats name e a st :
  classify_in formats name = Some (e, a, st) -> dict_get formats e = Some a.
Proof.
  induction formats as [|[k v] rest IH]; simpl; [discriminate|].
  destruct (Str.endswith name k) eqn:Hk.
  - intros H; inversion H; subst. now rewrite String.eqb_refl.
  - intros H. destruct (String.eqb_spec k e) as [->|_]; [|auto].
    apply classify_in_sound in H as (_ & He & _). congruence.
Qed.

Lemma classify_in_longest formats name e a st s :
  most_specific_first formats = true ->
  classify_in formats name = Some (e, a, st) ->
  In s (map fst formats) -> Str.endswith name s = true ->
  String.length s <= String.length e.
Proof.
  induction formats as [|[k v] rest IH]; simpl; [discriminate|].
  intros Hms Hc Hin Hs. apply andb_true_iff in Hms as [Hk Hms].
  destruct (Str.endswith name k) eqn:Hnk.
  - inversion Hc; subst. destruct Hin as [->|Hin]; [lia|].
    apply in_map_iff in Hin as ([s' a'] & <- & Hin). simpl in *.
    rewrite forallb_forall in Hk. specialize (Hk _ Hin). simpl in Hk.
    destruct (Nat.ltb_spec (String.length e) (String.length s')) as [Hlt|]; [|lia].
    rewrite (endswith_nested name e s') in Hk by (auto; lia). discriminate.
  - destruct Hin as [->|Hin]; [congruence|]. eauto.
Qed.

Lemma classify_in_some formats name s :
  In s (map fst formats) -> Str.endswith name s = true ->
  exists r, classify_in formats name = Some r.
Proof.
  induction formats as [|[k v] rest IH]; simpl; [tauto|].
  intros Hin Hs. destruct (Str.endswith name k) eqn:Hk; [eauto|].
  destruct Hin as [->|Hin]; [congruence | auto].
Qed.

(** The sentinel [""] ends every name, so the loop always breaks. *)
Lemma classify_total name :
  classify name = Some (ending_of name, attributes_of name, stem_of name).
Proof.
  unfold ending_of, attributes_of, stem_of.
  destruct (classify_in_some FORMATS name "") as [[[e a] s] H].
  - simpl. repeat (try (left; reflexivity); right).
  - apply endswith_empty.
  - unfold classify. now rewrite H.
Qed.

Lemma FORMATS_most_specific_first : most_specific_first FORMATS = true.
Proof. vm_compute. reflexivity. Qed.

Lemma endswith_same_length s a b :
  Str.endswith s a = true -> Str.endswith s b = true ->
  String.length a = String.length b -> a = b.
Proof.
  unfold Str.endswith. intros Ha Hb Hl.
  apply andb_true_iff in Ha as [_ Ha]. apply andb_true_iff in Hb as [_ Hb].
  apply String.eqb_eq in Ha, Hb. rewrite Hl in Ha. congruence.
Qed.

Lemma app_inv_tail_string (p q e : string) : p ++ e = q ++ e -> p = q.
Proof.
  intros H.
  assert (Hl : String.length p = String.length q).
  { apply (f_equal String.length) in H. rewrite !length_app in H. lia. }
  rewrite <- (take_app_length p e), H, Hl. apply take_app_length.
Qed.

Lemma slice_to_neg_app name e :
  e <> "" -> Str.endswith name e = true ->
  Str.slice_to_neg name (String.length e) ++ e = name.
Proof.
  intros Hne He. destruct e as [|c e]; [congruence|].
  unfold Str.slice_to_neg. change (String.length (String c e)) with (S (String.length e)).
  symmetry. now apply (endswith_inv name (String c e)).
Qed.

(** C2.  A name [stem ++ suffix] with a registered [suffix] is
    classified under a registered ending of the name, with that
    ending's descriptor in FORMATS and the name without the ending as
    stem; the ending matched is the longest registered suffix of the
    name, so it is [suffix] itself, with [stem], whenever no longer
    registered suffix ends the name. *)
Theorem classify_most_specific (stem suffix : string) :
  registered suffix ->
  exists ending attributes stem',
    classify (stem ++ suffix) = Some (ending, attributes, stem')
    /\ registered ending
    /\ dict_get FORMATS ending = Some attributes
    /\ stem' ++ ending = stem ++ suffix
    /\ (forall s, registered s -> Str.endswith (stem ++ suffix) s = true ->
        String.length s <= String.length ending)
    /\ ((forall s, registered s -> Str.endswith (stem ++ suffix) s = true ->
         String.length s <= String.length suffix) ->
        ending = suffix /\ stem' = stem).
Proof.
  intros [Hin Hne].
  set (name := stem ++ suffix).
  assert (Hsuf : Str.endswith name suffix = true) by apply endswith_app.
  destruct (classify_in_some FORMATS name suffix Hin Hsuf) as [[[e a] st] Hc].
  assert (Hlong : forall s, registered s -> Str.endswith name s = true ->
                            String.length s <= String.length e).
  { intros s [Hs _] Hes.
    exact (classify_in_longest _ _ _ _ _ _ FORMATS_most_specific_first Hc Hs Hes). }
  destruct (classify_in_sound _ _ _ _ _ Hc) as (HinE & HeE & Hst).
  assert (HneE : e <> "").
  { intros ->. specialize (Hlong suffix (conj Hin Hne) Hsuf).
    destruct suffix; [congruence | simpl in Hlong; lia]. }
  assert (Hreg : registered e).
  { split; [|exact HneE]. apply in_map_iff. now exists (e, a). }
  assert (Happ : st ++ e = name) by (subst st; now apply slice_to_neg_app).
  exists e, a, st.
  split; [exact Hc|]. split; [exact Hreg|].
  split; [now apply classify_in_get with (name := name) (st := st)|].
  split; [exact Happ|]. split; [exact Hlong|].
  intros H.
  assert (e = suffix).
  { apply (endswith_same_length name); auto.
    apply Nat.le_antisymm; [apply H; auto | apply Hlong; auto; split; auto]. }
  subst e. split; [reflexivity|].
  now apply app_inv_tail_string with (e := suffix).
Qed.

Lemma classify_most_specific_witness :
  exists ending attributes stem',
    classify ("book_advanced" ++ ".epub") = Some (ending, attributes, stem')
    /\ registered ending
    /\ dict_get FORMATS ending = Some attributes
    /\ stem' ++ ending = "book_advanced" ++ ".epub"
    /\ (forall s, registered s ->
        Str.endswith ("book_advanced" ++ ".epub") s = true ->
        String.length s <= String.length ending)
    /\ ((forall s, registered s ->
         Str.endswith ("book_advanced" ++ ".epub") s = true ->
         String.length s <= String.length ".epub") ->
        ending = ".epub" /\ stem' = "book_advanced").
Proof.
  apply (classify_most_specific "book_advanced" ".epub").
  split; [simpl; tauto | discriminate].
Defined.

(** ** Dicts in closed form *)

Lemma mem_In s l : mem s l = true <-> In s l.
Proof.
  unfold mem. rewrite existsb_exists. split.
  - intros (x & Hx & He). apply String.eqb_eq in He. now subst.
  - intros H. exists s. split; [exact H | apply String.eqb_refl].
Qed.

Lemma mem_false s l : mem s l = false <-> ~ In s l.
Proof.
  rewrite <- mem_In. destruct (mem s l); split; intros; congruence.
Qed.

Lemma tabulate_ext {V : Type} (g g' : string -> V) ks :
  (forall s, In s ks -> g s = g' s) -> tabulate g ks = tabulate g' ks.
Proof.
  intros H. unfold tabulate. apply map_ext_in. intros s Hs. now rewrite H.
Qed.

Lemma tabulate_get {V : Type} (g : string -> V) ks k :
  dict_get (tabulate g ks) k = if mem k ks then Some (g k) else None.
Proof.
  induction ks as [|a ks IH]; simpl; [reflexivity|].
  rewrite (String.eqb_sym k a).
  destruct (String.eqb_spec a k) as [->|]; simpl; [reflexivity | exact IH].
Qed.

Lemma tabulate_keys {V : Type} (g : string -> V) ks :
  dict_keys (tabulate g ks) = ks.
Proof.
  unfold dict_keys, tabulate. rewrite map_map. simpl. apply map_id.
Qed.

Lemma tabulate_values {V : Type} (g : string -> V) ks :
  dict_values (tabulate g ks) = map g ks.
Proof. unfold dict_values, tabulate. now rewrite map_map. Qed.

Lemma tabulate_set_in {V : Type} (g g' : string -> V) ks k :
  NoDup ks -> In k ks ->
  (forall s, In s ks -> s <> k -> g' s = g s) ->
  dict_set (tabulate g ks) k (g' k) = tabulate g' ks.
Proof.
  induction ks as [|a ks IH]; simpl; [tauto|].
  intros Hnd Hin Hg. inversion Hnd as [|? ? Ha Hnd']; subst.
  destruct (String.eqb_spec a k) as [->|Hne].
  - f_equal. apply tabulate_ext. intros s Hs. symmetry. apply Hg; [now right|].
    intros ->. contradiction.
  - destruct Hin as [->|Hin]; [congruence|].
    rewrite (Hg a) by auto. f_equal. apply IH; auto.
Qed.

Lemma tabulate_set_new {V : Type} (g g' : string -> V) ks k :
  ~ In k ks ->
  (forall s, In s ks -> g' s = g s) ->
  dict_set (tabulate g ks) k (g' k) = tabulate g' (ks ++ [k]).
Proof.
  induction ks as [|a ks IH]; simpl; [reflexivity|].
  intros Hin Hg.
  destruct (String.eqb_spec a k) as [->|Hne]; [tauto|].
  rewrite (Hg a) by auto. f_equal. apply IH; auto.
Qed.

(** ** The groups of a listing *)

Lemma stems_seen_app pre f :
  stems_seen (pre ++ [f]) =
  if recognised f && negb (mem (stem_of (f_name f)) (stems_seen pre))
  then (stems_seen pre ++ [stem_of (f_name f)])%list else stems_seen pre.
Proof. unfold stems_seen. now rewrite fold_left_app. Qed.

Lemma stems_seen_NoDup files : NoDup (stems_seen files).
Proof.
  induction files as [|f pre IH] using rev_ind; [constructor|].
  rewrite stems_seen_app.
  destruct (recognised f); simpl; [|exact IH].
  destruct (mem (stem_of (f_name f)) (stems_seen pre)) eqn:Hm; simpl; [exact IH|].
  apply mem_false in Hm.
  apply NoDup_app; [exact IH | repeat constructor; simpl; tauto |].
  intros x Hx [<-|[]]. contradiction.
Qed.

Lemma group_app stem pre f :
  group stem (pre ++ [f]) =
  (group stem pre
   ++ (if recognised f && String.eqb (stem_of (f_name f)) stem then [f] else []))%list.
Proof. unfold group. rewrite filter_app. reflexivity. Qed.

Lemma stems_seen_In stem files :
  In stem (stems_seen files) <->
  exists f, In f files /\ recognised f = true /\ stem_of (f_name f) = stem.
Proof.
  induction files as [|f pre IH] using rev_ind.
  - simpl. split; [tauto | intros (f & [] & _)].
  - rewrite stems_seen_app.
    destruct (recognised f) eqn:Hr; simpl.
    + destruct (mem (stem_of (f_name f)) (stems_seen pre)) eqn:Hm; simpl.
      * rewrite IH. split.
        -- intros (g & Hg & H). exists g. rewrite in_app_iff. tauto.
        -- intros (g & Hg & Hrg & Hs). apply in_app_iff in Hg as [Hg|[<-|[]]].
           ++ now exists g.
           ++ apply IH. rewrite <- Hs. now apply mem_In.
      * rewrite in_app_iff, IH. simpl. split.
        -- intros [(g & Hg & H)|[<-|[]]].
           ++ exists g. rewrite in_app_iff. tauto.
           ++ exists f. rewrite in_app_iff. simpl. tauto.
        -- intros (g & Hg & Hrg & Hs). apply in_app_iff in Hg as [Hg|[<-|[]]].
           ++ left. now exists g.
           ++ right. now left.
    + rewrite IH. split.
      * intros (g & Hg & H). exists g. rewrite in_app_iff. tauto.
      * intros (g & Hg & Hrg & Hs). apply in_app_iff in Hg as [Hg|[<-|[]]].
        -- now exists g.
        -- congruence.
Qed.

Lemma group_nil stem files : ~ In stem (stems_seen files) -> group stem files = [].
Proof.
  intros Hn. unfold group.
  destruct (filter _ files) as [|g l] eqn:Hf; [reflexivity|].
  exfalso. apply Hn. apply stems_seen_In.
  assert (Hg : In g (g :: l)) by now left.
  rewrite <- Hf in Hg. apply filter_In in Hg as [Hg Hp].
  apply andb_true_iff in Hp as [Hr Hs]. apply String.eqb_eq in Hs.
  now exists g.
Qed.

Lemma group_skip stem pre f :
  recognised f = false -> group stem (pre ++ [f]) = group stem pre.
Proof. intros H. rewrite group_app, H. simpl. apply app_nil_r. Qed.

Lemma group_other stem pre f :
  stem_of (f_name f) <> stem -> group stem (pre ++ [f]) = group stem pre.
Proof.
  intros H. rewrite group_app.
  destruct (String.eqb_spec (stem_of (f_name f)) stem); [contradiction|].
  rewrite andb_false_r. apply app_nil_r.
Qed.

Lemma group_same pre f :
  recognised f = true ->
  group (stem_of (f_name f)) (pre ++ [f]) = (group (stem_of (f_name f)) pre ++ [f])%list.
Proof. intros H. now rewrite group_app, H, String.eqb_refl. Qed.

(** ** The loop in closed form *)

Lemma tabulate_group_step {V : Type} (F : string -> list file -> V) pre f ks :
  NoDup ks -> In (stem_of (f_name f)) ks -> recognised f = true ->
  dict_set (tabulate (fun x => F x (group x pre)) ks) (stem_of (f_name f))
           (F (stem_of (f_name f)) (group (stem_of (f_name f)) pre ++ [f])%list)
  = tabulate (fun x => F x (group x (pre ++ [f]))) ks.
Proof.
  intros Hnd Hin Hr. rewrite <- (group_same pre f Hr).
  apply (tabulate_set_in (fun x => F x (group x pre))
                         (fun x => F x (group x (pre ++ [f])))); auto.
  intros s _ Hne. now rewrite group_other by congruence.
Qed.

Lemma tabulate_group_keep {V : Type} (F : string -> list file -> V) pre f ks :
  recognised f = true ->
  F (stem_of (f_name f)) (group (stem_of (f_name f)) pre ++ [f])%list
  = F (stem_of (f_name f)) (group (stem_of (f_name f)) pre) ->
  tabulate (fun x => F x (group x pre)) ks
  = tabulate (fun x => F x (group x (pre ++ [f]))) ks.
Proof.
  intros Hr HF. apply tabulate_ext. intros s _.
  destruct (String.eqb_spec (stem_of (f_name f)) s) as [<-|Hne].
  - now rewrite group_same, HF.
  - now rewrite group_other.
Qed.

Lemma tabulate_group_new {V : Type} (F : string -> list file -> V) pre s :
  ~ In s (stems_seen pre) ->
  dict_set (tabulate (fun x => F x (group x pre)) (stems_seen pre)) s (F s [])
  = tabulate (fun x => F x (group x pre)) (stems_seen pre ++ [s]).
Proof.
  intros Hn. rewrite <- (group_nil s pre Hn).
  now apply (tabulate_set_new (fun x => F x (group x pre))
                              (fun x => F x (group x pre))).
Qed.

Lemma merge_key_step key default pre f ks :
  NoDup ks -> In (stem_of (f_name f)) ks -> recognised f = true ->
  merge_key (extract_metadata f) key
            (tabulate (fun x => merged key (default x) (group x pre)) ks)
            (stem_of (f_name f))
  = tabulate (fun x => merged key (default x) (group x (pre ++ [f]))) ks.
Proof.
  intros Hnd Hin Hr. unfold merge_key.
  destruct (dict_get (extract_metadata f) key) as [v|] eqn:Hk.
  - rewrite <- (tabulate_group_step (fun x g => merged key (default x) g)) by auto.
    f_equal. unfold merged. rewrite fold_left_app. simpl. now rewrite Hk.
  - apply (tabulate_group_keep (fun x g => merged key (default x) g)); auto.
    unfold merged. rewrite fold_left_app. simpl. now rewrite Hk.
Qed.

Lemma max_timestamp_snoc files f :
  max_timestamp (files ++ [f]) = Str.max (max_timestamp files) (timestamp f).
Proof. unfold max_timestamp. now rewrite fold_left_app. Qed.

Lemma state_on_skip url ks pre f :
  recognised f = false ->
  state_on url ks (pre ++ [f]) =
  mkState (entries (state_on url ks pre)) (updated (state_on url ks pre))
          (titles (state_on url ks pre)) (authors (state_on url ks pre))
          (contents (state_on url ks pre)) (latest (state_on url ks pre))
          (printed (state_on url ks pre)
           ++ (if unrecognised f then [diagnostic f] else []))%list.
Proof.
  intros Hr. unfold state_on; simpl.
  rewrite !filter_app; simpl. rewrite Hr, app_nil_r, map_app.
  f_equal; try (apply tabulate_ext; intros s _; unfold entry_in_loop, links_of;
                now rewrite group_skip).
  now destruct (unrecognised f).
Qed.

Lemma loop_body_state_of url pre f :
  loop_body url (state_of url pre) f = Some (state_of url (pre ++ [f])).
Proof.
  remember (state_of url pre) as st eqn:Hst.
  unfold loop_body.
  destruct (f_is_file f) eqn:Hfile; cbn [negb].
  2:{ assert (Hr : recognised f = false) by (unfold recognised; now rewrite Hfile).
      subst st. unfold state_of. rewrite stems_seen_app, Hr. simpl.
      rewrite state_on_skip by exact Hr.
      unfold unrecognised. rewrite Hfile. simpl. rewrite app_nil_r.
      reflexivity. }
  rewrite classify_total. cbn [bind].
  destruct (String.eqb (ending_of (f_name f)) "") eqn:He.
  { assert (Hr : recognised f = false) by (unfold recognised; now rewrite Hfile, He).
    subst st. unfold state_of. rewrite stems_seen_app, Hr. simpl.
    rewrite state_on_skip by exact Hr.
    unfold unrecognised. rewrite Hfile, He. reflexivity. }
  assert (Hr : recognised f = true) by (unfold recognised; now rewrite Hfile, He).
  set (s := stem_of (f_name f)).
  assert (Hnd := stems_seen_NoDup (pre ++ [f])).
  assert (Hin : In s (stems_seen (pre ++ [f]))).
  { apply stems_seen_In. exists f. rewrite in_app_iff. simpl. auto. }
  (* the accumulators once the entry of the stem exists *)
  assert (Hcreate :
    (if negb (dict_mem (entries st) s)
     then mkState
            (dict_set (entries st) s
               (Dict "entry" None [] (Some [text_item "id" (url ++ Urllib.quote s)])))
            (dict_set (updated st) s "")
            (dict_set (titles st) s s)
            (dict_set (authors st) s "Unknown")
            (dict_set (contents st) s "")
            (latest st) (printed st)
     else st)
    = state_on url (stems_seen (pre ++ [f])) pre).
  { subst st. unfold dict_mem, state_of at 1. simpl. rewrite tabulate_get.
    rewrite stems_seen_app, Hr. fold s. simpl.
    destruct (mem s (stems_seen pre)) eqn:Hm; simpl; [reflexivity|].
    apply mem_false in Hm. unfold state_of, state_on. simpl. f_equal.
    - apply (tabulate_group_new
               (fun x g => Dict "entry" None []
                  (Some (text_item "id" (url ++ Urllib.quote x) :: map (link_of url) g)))
               pre s Hm).
    - apply (tabulate_group_new (fun _ g => max_timestamp g) pre s Hm).
    - apply (tabulate_group_new (fun x g => merged "title" x g) pre s Hm).
    - apply (tabulate_group_new (fun _ g => merged "author" "Unknown" g) pre s Hm).
    - apply (tabulate_group_new (fun _ g => merged "content" "" g) pre s Hm). }
  rewrite Hcreate. clear Hcreate Hst st.
  unfold state_on at 1 2 3 4 5 6 7 8. cbn [entries updated titles authors contents latest printed].
  unfold append_child. rewrite !tabulate_get.
  apply mem_In in Hin. rewrite Hin. cbn [bind].
  apply mem_In in Hin.
  cbn [get_CHILDREN entry_in_loop bind set_CHILDREN].
  unfold state_of, state_on. f_equal. f_equal.
  - etransitivity;
      [|exact (tabulate_group_step
                 (fun x g => Dict "entry" None []
                    (Some (text_item "id" (url ++ Urllib.quote x)
                           :: map (link_of url) g)))
                 pre f _ Hnd Hin Hr)].
    unfold entry_in_loop, links_of, list_append, link_of. rewrite map_app.
    reflexivity.
  - rewrite <- max_timestamp_snoc.
    exact (tabulate_group_step (fun _ g => max_timestamp g) pre f _ Hnd Hin Hr).
  - exact (merge_key_step "title" (fun x => x) pre f _ Hnd Hin Hr).
  - exact (merge_key_step "author" (fun _ => "Unknown") pre f _ Hnd Hin Hr).
  - exact (merge_key_step "content" (fun _ => "") pre f _ Hnd Hin Hr).
  - rewrite filter_app. simpl. rewrite Hr. now rewrite max_timestamp_snoc.
  - rewrite filter_app. simpl.
    assert (Hu : unrecognised f = false) by (unfold unrecognised; now rewrite Hfile, He).
    rewrite Hu. now rewrite app_nil_r.
Qed.

Lemma for_files_state_of url files pre :
  for_files url files (state_of url pre) = Some (state_of url (pre ++ files)).
Proof.
  revert pre; induction files as [|f files IH]; intros pre; simpl.
  - now rewrite app_nil_r.
  - rewrite loop_body_state_of. cbn [bind]. rewrite IH.
    now rewrite <- app_assoc.
Qed.

(** The loop over the files never fails and leaves the accumulators in
    closed form. *)
Lemma for_files_initial url files :
  for_files url files initial_state = Some (state_of url files).
Proof. exact (for_files_state_of url files []). Qed.

(** ** The metadata loops in closed form *)

Lemma insert_child_tabulate (ch : string -> list item) ks s i x :
  NoDup ks -> In s ks ->
  insert_child (tabulate (fun k => Dict "entry" None [] (Some (ch k))) ks) s i x
  = Some (tabulate
            (fun k => Dict "entry" None []
               (Some (if String.eqb k s then list_insert (ch k) i x else ch k)))
            ks).
Proof.
  intros Hnd Hin. unfold insert_child. rewrite tabulate_get.
  apply mem_In in Hin. rewrite Hin. apply mem_In in Hin.
  cbn [bind get_CHILDREN set_CHILDREN]. f_equal.
  rewrite <- (tabulate_set_in
                (fun k => Dict "entry" None [] (Some (ch k)))
                (fun k => Dict "entry" None []
                   (Some (if String.eqb k s then list_insert (ch k) i x else ch k)))
                ks s Hnd Hin).
  - cbv beta. now rewrite String.eqb_refl.
  - intros k _ Hne. cbv beta.
    destruct (String.eqb_spec k s); [contradiction | reflexivity].
Qed.

Lemma for_insert_tabulate (gv : string -> string) (make : string -> item) i ks :
  NoDup ks ->
  forall ks' (ch : string -> list item),
    NoDup ks' -> incl ks' ks ->
    for_insert (tabulate gv ks') i make
               (tabulate (fun k => Dict "entry" None [] (Some (ch k))) ks)
    = Some (tabulate
              (fun k => Dict "entry" None []
                 (Some (if mem k ks' then list_insert (ch k) i (make (gv k))
                        else ch k)))
              ks).
Proof.
  intros Hnd. induction ks' as [|a ks' IH]; intros ch Hnd' Hincl.
  - reflexivity.
  - inversion Hnd' as [|? ? Ha Hnd'']; subst.
    cbn [tabulate map for_insert].
    rewrite insert_child_tabulate by (auto; apply Hincl; now left).
    cbn [bind]. fold (tabulate gv ks').
    rewrite IH by (auto; intros k Hk; apply Hincl; now right).
    f_equal. apply tabulate_ext. intros k _. do 2 f_equal.
    unfold mem. cbn [existsb]. fold (mem k ks').
    destruct (String.eqb_spec k a) as [->|Hne]; simpl.
    + apply mem_false in Ha. now rewrite Ha.
    + reflexivity.
Qed.

Lemma merged_last_write key default files :
  merged key default files = last_write key default files.
Proof.
  induction files as [|f files IH] using rev_ind; [reflexivity|].
  unfold merged, last_write in *. rewrite fold_left_app, rev_app_distr. simpl.
  unfold dict_mem at 1.
  destruct (dict_get (extract_metadata f) key) eqn:Hk;
    [now rewrite Hk | exact IH].
Qed.

Section Closed.
Variable parser_feed : string -> list string.

Lemma put_metadata_state_of url files :
  put_metadata parser_feed (state_of url files)
  = Some (tabulate (entry_of parser_feed url files) (stems_seen files)).
Proof.
  assert (Hnd := stems_seen_NoDup files).
  unfold put_metadata, state_of, state_on.
  cbn [entries updated titles authors contents].
  unfold entry_in_loop.
  rewrite (for_insert_tabulate _ _ _ _ Hnd _ _ Hnd (incl_refl _)). cbn [bind].
  rewrite (for_insert_tabulate _ _ _ _ Hnd _ _ Hnd (incl_refl _)). cbn [bind].
  rewrite (for_insert_tabulate _ _ _ _ Hnd _ _ Hnd (incl_refl _)). cbn [bind].
  rewrite (for_insert_tabulate _ _ _ _ Hnd _ _ Hnd (incl_refl _)).
  f_equal. apply tabulate_ext. intros s Hs.
  apply mem_In in Hs. rewrite Hs.
  unfold entry_of, entry_head, list_insert. simpl.
  now rewrite !merged_last_write.
Qed.

(** The feed is built for every listing, and this is the tree. *)
Lemma build_feed_closed files url :
  build_feed parser_feed files url
  = Some (feed_node url (max_timestamp (filter recognised files))
                    (map (entry_of parser_feed url files) (stems_seen files)),
          map diagnostic (filter unrecognised files)).
Proof.
  unfold build_feed. rewrite for_files_initial. cbn [bind].
  rewrite put_metadata_state_of. cbn [bind].
  rewrite tabulate_values. reflexivity.
Qed.

End Closed.

(** ** The order of strings and [max] *)

Lemma ascii_compare_lt_trans x y z :
  Ascii.compare x y = Lt -> Ascii.compare y z = Lt -> Ascii.compare x z = Lt.
Proof.
  unfold Ascii.compare. rewrite !N.compare_lt_iff. apply N.lt_trans.
Qed.

Lemma compare_lt_trans a b c :
  String.compare a b = Lt -> String.compare b c = Lt -> String.compare a c = Lt.
Proof.
  revert b c; induction a as [|x a IH]; intros [|y b] [|z c]; simpl;
    try congruence.
  destruct (Ascii.compare x y) eqn:Hxy; try congruence.
  - apply Ascii.compare_eq_iff in Hxy; subst y.
    destruct (Ascii.compare x z); try congruence. apply IH.
  - intros _. destruct (Ascii.compare y z) eqn:Hyz; try congruence.
    + apply Ascii.compare_eq_iff in Hyz; subst z. now rewrite Hxy.
    + now rewrite (ascii_compare_lt_trans x y z).
Qed.

Lemma compare_refl a : String.compare a a = Eq.
Proof.
  induction a as [|x a IH]; simpl; [reflexivity|].
  replace (Ascii.compare x x) with Eq; [exact IH|].
  symmetry. unfold Ascii.compare. apply N.compare_refl.
Qed.

Lemma leb_refl a : String.leb a a = true.
Proof. unfold String.leb. now rewrite compare_refl. Qed.

Lemma leb_trans a b c :
  String.leb a b = true -> String.leb b c = true -> String.leb a c = true.
Proof.
  unfold String.leb.
  destruct (String.compare a b) eqn:Hab; try discriminate; intros _.
  - apply String.compare_eq_iff in Hab. now subst.
  - destruct (String.compare b c) eqn:Hbc; try discriminate; intros _.
    + apply String.compare_eq_iff in Hbc. subst. now rewrite Hab.
    + now rewrite (compare_lt_trans a b c).
Qed.

Lemma ltb_leb a b : String.ltb a b = negb (String.leb b a).
Proof.
  unfold String.ltb, String.leb. rewrite (String.compare_antisym b a).
  now destruct (String.compare a b).
Qed.

Lemma max_ub_l a b : String.leb a (Str.max a b) = true.
Proof.
  unfold Str.max. destruct (String.ltb a b) eqn:H; [|apply leb_refl].
  unfold String.ltb in H. unfold String.leb.
  now destruct (String.compare a b).
Qed.

Lemma max_ub_r a b : String.leb b (Str.max a b) = true.
Proof.
  unfold Str.max. destruct (String.ltb a b) eqn:H; [apply leb_refl|].
  rewrite ltb_leb in H. now apply negb_false_iff in H.
Qed.

Lemma max_least a b c :
  String.leb a c = true -> String.leb b c = true ->
  String.leb (Str.max a b) c = true.
Proof. unfold Str.max. now destruct (String.ltb a b). Qed.

Lemma max_right_comm a x y :
  Str.max (Str.max a x) y = Str.max (Str.max a y) x.
Proof.
  apply String.leb_antisym; repeat apply max_least;
    eauto using leb_trans, max_ub_l, max_ub_r.
Qed.

Lemma max_empty_l t : Str.max "" t = t.
Proof. unfold Str.max. now destruct t. Qed.

Lemma fold_max_permutation (l l' : list file) :
  Permutation l l' ->
  forall m, fold_left (fun m f => Str.max m (timestamp f)) l m
            = fold_left (fun m f => Str.max m (timestamp f)) l' m.
Proof.
  induction 1; intros m; simpl; auto.
  - now rewrite max_right_comm.
  - now rewrite IHPermutation1.
Qed.

Lemma max_timestamp_permutation l l' :
  Permutation l l' -> max_timestamp l = max_timestamp l'.
Proof. intros H. now apply fold_max_permutation. Qed.

Lemma filter_permutation {A : Type} (p : A -> bool) l l' :
  Permutation l l' -> Permutation (filter p l) (filter p l').
Proof.
  induction 1; simpl.
  - constructor.
  - destruct (p x); auto.
  - destruct (p x), (p y); auto. constructor.
  - eapply Permutation_trans; eauto.
Qed.

Lemma group_permutation stem l l' :
  Permutation l l' -> Permutation (group stem l) (group stem l').
Proof. apply filter_permutation. Qed.

(** ** Sorting *)

Lemma sorted_insert_permutation f l : Permutation (sorted_insert f l) (f :: l).
Proof.
  induction l as [|g l IH]; simpl; [auto|].
  destruct (String.ltb (f_name g) (f_name f)); [|auto].
  eapply Permutation_trans; [apply perm_skip, IH | apply perm_swap].
Qed.

Lemma sorted_permutation l : Permutation (sorted l) l.
Proof.
  induction l as [|f l IH]; simpl; [constructor|].
  eapply Permutation_trans; [apply sorted_insert_permutation | now constructor].
Qed.

(** [f] comes no later than every file of [l] in the order of names *)
Lemma sorted_insert_head f l :
  Forall (fun g => String.leb (f_name f) (f_name g) = true) l ->
  sorted_insert f l = f :: l.
Proof.
  destruct l as [|g l]; simpl; [reflexivity|].
  intros H. inversion H as [|? ? Hg _]; subst.
  rewrite ltb_leb, Hg. reflexivity.
Qed.

Lemma sorted_insert_Forall (P : file -> Prop) f l :
  P f -> Forall P l -> Forall P (sorted_insert f l).
Proof.
  intros Hf Hl. eapply Permutation_Forall.
  - symmetry. apply sorted_insert_permutation.
  - now constructor.
Qed.

Lemma sorted_insert_ascending f l : ascending l -> ascending (sorted_insert f l).
Proof.
  unfold ascending. induction 1 as [|g l Hg Hl IH]; simpl.
  - repeat constructor.
  - destruct (String.ltb (f_name g) (f_name f)) eqn:Hlt.
    + constructor; [|exact IH].
      apply sorted_insert_Forall; [|exact Hg].
      rewrite ltb_leb in Hlt.
      destruct (String.leb_total (f_name g) (f_name f)) as [H|H]; [exact H|].
      rewrite H in Hlt. discriminate.
    + rewrite ltb_leb in Hlt. apply negb_false_iff in Hlt.
      constructor; [|now constructor].
      constructor; [exact Hlt|].
      eapply Forall_impl; [|exact Hg]. intros h Hh. cbv beta in *.
      now apply leb_trans with (f_name g).
Qed.

Lemma sorted_ascending l : ascending (sorted l).
Proof.
  induction l as [|f l IH]; simpl; [constructor|].
  now apply sorted_insert_ascending.
Qed.

Lemma filter_sorted_insert (p : file -> bool) f l :
  ascending l ->
  filter p (sorted_insert f l)
  = if p f then sorted_insert f (filter p l) else filter p l.
Proof.
  unfold ascending. induction 1 as [|g l Hg Hl IH]; simpl.
  - now destruct (p f).
  - destruct (String.ltb (f_name g) (f_name f)) eqn:Hlt; simpl.
    + rewrite IH. destruct (p g), (p f); simpl; try reflexivity.
      now rewrite Hlt.
    + destruct (p f) eqn:Hpf; [|reflexivity].
      f_equal. symmetry.
      rewrite ltb_leb in Hlt. apply negb_false_iff in Hlt.
      assert (Hall : Forall (fun h => String.leb (f_name f) (f_name h) = true)
                            (g :: l)).
      { constructor; [exact Hlt|].
        eapply Forall_impl; [|exact Hg]. intros h Hh. cbv beta in *.
        now apply leb_trans with (f_name g). }
      change (if p g then g :: filter p l else filter p l) with (filter p (g :: l)).
      apply sorted_insert_head.
      apply Forall_forall. intros h Hh. apply filter_In in Hh as [Hh _].
      rewrite Forall_forall in Hall. now apply Hall.
Qed.

(** Sorting commutes with leaving files out. *)
Lemma filter_sorted (p : file -> bool) l : filter p (sorted l) = sorted (filter p l).
Proof.
  induction l as [|f l IH]; simpl; [reflexivity|].
  rewrite filter_sorted_insert by apply sorted_ascending.
  rewrite IH. now destruct (p f).
Qed.

(** * The claims *)

Lemma make_tree_closed parser_feed directory url :
  make_tree parser_feed directory url
  = Some (feed_node url (max_timestamp (filter recognised (sorted directory)))
            (map (entry_of parser_feed url (sorted directory))
                 (stems_seen (sorted directory))),
          map diagnostic (filter unrecognised (sorted directory))).
Proof. apply build_feed_closed. Qed.


Lemma last_write_nil key default : last_write key default [] = default.
Proof. reflexivity. Qed.

Lemma last_write_snoc key default files f :
  last_write key default (files ++ [f])
  = match dict_get (extract_metadata f) key with
    | Some v => v
    | None => last_write key default files
    end.
Proof.
  rewrite <- !merged_last_write. unfold merged. now rewrite fold_left_app.
Qed.

(** C3.  After the loop over the files, the title, author and content
    of every book are the last write over the files of the book in
    processing order: the default (the stem, "Unknown", the empty
    string) for no file, the value of the last file when its metadata
    has the key, and the value before that file when it has not. *)
Theorem metadata_last_write_wins (directory : list file) (url : string) :
  exists st,
    for_files url (sorted directory) initial_state = Some st
    /\ (forall stem,
          In stem (dict_keys (entries st)) ->
          let g := group stem (sorted directory) in
          dict_get (titles st) stem = Some (last_write "title" stem g)
          /\ dict_get (authors st) stem = Some (last_write "author" "Unknown" g)
          /\ dict_get (contents st) stem = Some (last_write "content" "" g))
    /\ (forall key default, last_write key default [] = default)
    /\ (forall key default files f v,
          dict_get (extract_metadata f) key = Some v ->
          last_write key default (files ++ [f]) = v)
    /\ (forall key default files f,
          dict_get (extract_metadata f) key = None ->
          last_write key default (files ++ [f]) = last_write key default files).
Proof.
  exists (state_of url (sorted directory)).
  split; [apply for_files_initial|].
  split; [|split; [reflexivity|split]].
  - intros stem Hin g. unfold state_of, state_on in *. cbn [entries titles authors contents] in *.
    rewrite tabulate_keys in Hin. apply mem_In in Hin.
    rewrite !tabulate_get, Hin, !merged_last_write. auto.
  - intros key default files f v H. now rewrite last_write_snoc, H.
  - intros key default files f H. now rewrite last_write_snoc, H.
Qed.

Lemma metadata_last_write_wins_witness :
  let first := mkFile "book.epub" true 0 [] [("title", "Foo"); ("creator", "Bar")] in
  let second := mkFile "book.pdf" true 0 [("/Title", "Baz")] [] in
  let third := mkFile "book.txt" true 0 [] [] in
  exists st,
    for_files "u/" (sorted [third; second; first]) initial_state = Some st
    /\ dict_get (titles st) "book" = Some "Baz"
    /\ dict_get (authors st) "book" = Some "Bar"
    /\ dict_get (contents st) "book" = Some "".
Proof.
  intros first second third.
  destruct (metadata_last_write_wins [third; second; first] "u/")
    as (st & Hst & Hkeys & _).
  exists st. split; [exact Hst|].
  assert (Hin : In "book" (dict_keys (entries st))).
  { vm_compute in Hst. injection Hst as <-. vm_compute. now left. }
  exact (Hkeys "book" Hin).
Defined.

(** C4.  The [updated] of a book is the greatest timestamp string of
    its files, which need not be the timestamp of the file modified
    last: a time on a whole second is rendered without a fraction, and
    "Z" sorts after ".".  Here book.epub is modified half a second
    after book.pdf, and the entry (and the feed) carry the timestamp of
    book.pdf. *)
Theorem updated_is_not_the_latest_modification :
  let epub := mkFile "book.epub" true 1577836800500000 [] [] in
  let pdf := mkFile "book.pdf" true 1577836800000000 [] [] in
  let url := "https://myoung.uk/ebooks/" in
  modified_before pdf epub
  /\ timestamp epub = "2020-01-01T00:00:00.500000Z"
  /\ timestamp pdf = "2020-01-01T00:00:00Z"
  /\ Str.max (timestamp pdf) (timestamp epub) = timestamp pdf
  /\ exists children log,
      make_tree parser_feed0 [epub; pdf] url
      = Some (feed_node url (timestamp pdf)
                [Dict "entry" None []
                   (Some (text_item "id" (url ++ "book")
                          :: text_item "updated" (timestamp pdf)
                          :: children))],
              log).
Proof.
  intros epub pdf url.
  split; [reflexivity|].
  split; [vm_compute; reflexivity|].
  split; [vm_compute; reflexivity|].
  split; [vm_compute; reflexivity|].
  do 2 eexists. vm_compute. reflexivity.
Qed.

(** C8.  With a parser that follows [HTMLParser.feed], the filter
    turns "Hello <b>world</b>" into "Hello world"; and with any parser
    a text that has neither "<" nor "&lt;" in it is returned as it
    is. *)
Theorem filter_html_strips_tags_only :
  (forall parser_feed,
      agrees_with_HTMLParser parser_feed ->
      filter_html parser_feed "Hello <b>world</b>" = "Hello world")
  /\ (forall parser_feed text,
        Str.contains "<" text = false ->
        Str.contains "&lt;" text = false ->
        filter_html parser_feed text = text).
Proof.
  split.
  - intros parser_feed Hp. unfold filter_html.
    replace (Str.contains "<" "Hello <b>world</b>") with true by reflexivity.
    cbn [orb]. unfold HTMLFilter_feed.
    rewrite (Hp "Hello <b>world</b>" ["Hello "; "world"]) by reflexivity.
    reflexivity.
  - intros parser_feed text H1 H2. unfold filter_html. now rewrite H1, H2.
Qed.

Lemma parser_feed0_agrees : agrees_with_HTMLParser parser_feed0.
Proof. intros text calls H. unfold parser_feed0. now rewrite H. Qed.

Lemma filter_html_strips_tags_only_witness :
  filter_html parser_feed0 "Hello <b>world</b>" = "Hello world"
  /\ filter_html parser_feed0 "Hello world" = "Hello world".
Proof.
  split.
  - apply (proj1 filter_html_strips_tags_only parser_feed0 parser_feed0_agrees).
  - apply (proj2 filter_html_strips_tags_only parser_feed0 "Hello world");
      reflexivity.
Defined.

(** ** The shape of the tree *)

Lemma exclusive_Dict n ns a cs :
  exclusive (Dict n ns a (Some cs))
  = (List.forallb is_str cs || List.forallb is_dict cs)
    && List.forallb exclusive cs.
Proof. reflexivity. Qed.

Lemma exclusive_of_dicts n ns a cs :
  List.forallb is_dict cs = true -> List.forallb exclusive cs = true ->
  exclusive (Dict n ns a (Some cs)) = true.
Proof.
  intros H1 H2. rewrite exclusive_Dict, H1, H2. now rewrite orb_true_r.
Qed.

Lemma attributes_of_In name : In (ending_of name, attributes_of name) FORMATS.
Proof.
  assert (H := classify_total name). unfold classify in H.
  now apply classify_in_sound in H.
Qed.

Lemma exclusive_link url f : exclusive (link_of url f) = true.
Proof.
  unfold link_of, link_item.
  assert (H : List.forallb
                (fun x => match attr_CHILDREN (snd x) with
                          | None => true
                          | Some cs => List.forallb is_str cs
                                       && List.forallb exclusive cs
                          end) FORMATS = true) by (vm_compute; reflexivity).
  rewrite forallb_forall in H.
  specialize (H _ (attributes_of_In (f_name f))). simpl in H.
  destruct (attr_CHILDREN (attributes_of (f_name f))) as [cs|]; [|reflexivity].
  apply andb_true_iff in H as [H1 H2].
  rewrite exclusive_Dict, H1, H2. reflexivity.
Qed.

Lemma exclusive_entry parser_feed url files stem :
  exclusive (entry_of parser_feed url files stem) = true.
Proof.
  unfold entry_of. apply exclusive_of_dicts; rewrite forallb_app.
  - apply andb_true_iff; split; [reflexivity|].
    apply forallb_forall. intros x Hx.
    apply in_map_iff in Hx as (f & <- & _). reflexivity.
  - apply andb_true_iff; split; [reflexivity|].
    apply forallb_forall. intros x Hx.
    apply in_map_iff in Hx as (f & <- & _). apply exclusive_link.
Qed.

(** C7.  In the tree [make_tree] returns, the children of every node,
    at every depth, are either all strings or all nodes. *)
Theorem tree_text_and_children_exclusive parser_feed directory url :
  exists tree log,
    make_tree parser_feed directory url = Some (tree, log)
    /\ exclusive tree = true.
Proof.
  rewrite make_tree_closed. do 2 eexists. split; [reflexivity|].
  unfold feed_node. apply exclusive_of_dicts; rewrite forallb_app.
  - apply andb_true_iff; split; [reflexivity|].
    apply forallb_forall. intros x Hx.
    apply in_map_iff in Hx as (s & <- & _). reflexivity.
  - apply andb_true_iff; split; [reflexivity|].
    apply forallb_forall. intros x Hx.
    apply in_map_iff in Hx as (s & <- & _). apply exclusive_entry.
Qed.

(** C6.  Every entry of the feed has as children, in this order, the
    id, the updated timestamp, the title, the author with its name, the
    content passed through the HTML filter, and then one link for each
    file of the book in the order the files were processed, however
    many there are. *)
Theorem entry_children_order parser_feed directory url :
  let files := sorted directory in
  exists latest log,
    make_tree parser_feed directory url
    = Some (feed_node url latest
              (map (fun stem =>
                      let g := group stem files in
                      Dict "entry" None []
                        (Some
                           (text_item "id" (url ++ Urllib.quote stem)
                            :: text_item "updated" (max_timestamp g)
                            :: text_item "title" (last_write "title" stem g)
                            :: Dict "author" None []
                                 (Some [text_item "name"
                                          (last_write "author" "Unknown" g)])
                            :: Dict "content" None [("type", "text")]
                                 (Some [Str (filter_html parser_feed
                                               (last_write "content" "" g))])
                            :: map (link_of url) g)))
                   (stems_seen files)),
            log).
Proof.
  intros files. rewrite make_tree_closed. do 2 eexists. reflexivity.
Qed.

(** ** Leaving out the files of unknown type *)

Lemma filter_filter_implied {A : Type} (p q : A -> bool) l :
  (forall x, p x = true -> q x = true) -> filter p (filter q l) = filter p l.
Proof.
  intros H. induction l as [|x l IH]; simpl; [reflexivity|].
  destruct (q x) eqn:Hq; simpl.
  - now rewrite IH.
  - destruct (p x) eqn:Hp; [|exact IH]. apply H in Hp. congruence.
Qed.

Lemma stems_seen_filter (keep : file -> bool) l :
  (forall f, recognised f = true -> keep f = true) ->
  stems_seen (filter keep l) = stems_seen l.
Proof.
  intros H. induction l as [|f pre IH] using rev_ind; [reflexivity|].
  rewrite filter_app. simpl. destruct (keep f) eqn:Hk.
  - now rewrite !stems_seen_app, IH.
  - rewrite app_nil_r, stems_seen_app, IH.
    destruct (recognised f) eqn:Hr; [|reflexivity].
    apply H in Hr. congruence.
Qed.

Lemma recognised_not_unrecognised f :
  recognised f = true -> negb (unrecognised f) = true.
Proof.
  unfold recognised, unrecognised. intros H.
  apply andb_true_iff in H as [-> H]. simpl.
  now destruct (String.eqb (ending_of (f_name f)) "").
Qed.

Lemma entry_of_filter parser_feed url (keep : file -> bool) l stem :
  (forall f, recognised f = true -> keep f = true) ->
  entry_of parser_feed url (filter keep l) stem = entry_of parser_feed url l stem.
Proof.
  intros H. unfold entry_of, entry_head, links_of.
  assert (Hg : group stem (filter keep l) = group stem l).
  { unfold group. apply filter_filter_implied. intros f Hf.
    apply andb_true_iff in Hf as [Hf _]. auto. }
  now rewrite Hg.
Qed.

(** C9.  A file of unknown type does not stop the run: [make_tree]
    returns the tree it returns for the directory without such files,
    and prints one line for each of them.  A directory with book.epub
    and book.xyz gives one entry, built from book.epub alone, and one
    line for book.xyz. *)
Theorem unknown_files_are_skipped parser_feed url :
  (forall directory,
      exists tree,
        make_tree parser_feed directory url
        = Some (tree, map diagnostic (filter unrecognised (sorted directory)))
        /\ make_tree parser_feed
                     (filter (fun f => negb (unrecognised f)) directory) url
           = Some (tree, []))
  /\ (forall t1 t2 pdf1 opf1 pdf2 opf2,
        let epub := mkFile "book.epub" true t1 pdf1 opf1 in
        let xyz := mkFile "book.xyz" true t2 pdf2 opf2 in
        make_tree parser_feed [xyz; epub] url
        = Some (feed_node url (timestamp epub)
                          [entry_of parser_feed url [epub] "book"],
                ["Unknown filetype book.xyz"])).
Proof.
  split.
  - intros directory. rewrite !make_tree_closed. eexists. split; [reflexivity|].
    set (keep := fun f => negb (unrecognised f)).
    rewrite <- (filter_sorted keep).
    rewrite (filter_filter_implied recognised keep)
      by apply recognised_not_unrecognised.
    rewrite (stems_seen_filter keep) by apply recognised_not_unrecognised.
    assert (Hu : filter unrecognised (filter keep (sorted directory)) = []).
    { induction (sorted directory) as [|f l IH]; [reflexivity|]. simpl.
      unfold keep at 1. destruct (unrecognised f) eqn:Hf; simpl; [exact IH|].
      now rewrite Hf. }
    rewrite Hu. simpl. do 3 f_equal.
    apply map_ext. intros stem. apply entry_of_filter.
    apply recognised_not_unrecognised.
  - intros t1 t2 pdf1 opf1 pdf2 opf2 epub xyz. rewrite make_tree_closed.
    assert (Hs : sorted [xyz; epub] = [epub; xyz]) by reflexivity.
    rewrite Hs.
    assert (Hr : filter recognised [epub; xyz] = [epub]) by reflexivity.
    assert (Hu : filter unrecognised [epub; xyz] = [xyz]) by reflexivity.
    assert (Hk : stems_seen [epub; xyz] = ["book"]) by reflexivity.
    assert (Hg : group "book" [epub; xyz] = group "book" [epub]) by reflexivity.
    rewrite Hr, Hu, Hk. unfold max_timestamp. simpl fold_left.
    rewrite max_empty_l. simpl map.
    unfold entry_of, entry_head, links_of. rewrite Hg. reflexivity.
Qed.

Lemma unknown_files_are_skipped_witness :
  let epub := mkFile "book.epub" true 1577836800000000 [] [("title", "Foo")] in
  let xyz := mkFile "book.xyz" true 1577836900000000 [] [] in
  make_tree parser_feed0 [xyz; epub] "u/"
  = Some (feed_node "u/" (timestamp epub) [entry_of parser_feed0 "u/" [epub] "book"],
          ["Unknown filetype book.xyz"]).
Proof.
  intros epub xyz.
  apply (proj2 (unknown_files_are_skipped parser_feed0 "u/")).
Defined.

(** ** The empty stem *)

Lemma classify_whole_name name :
  registered name -> classify name = Some (name, attributes_of name, "").
Proof.
  intros [Hin Hne]. simpl in Hin.
  repeat (destruct Hin as [<-|Hin]; [vm_compute; reflexivity|]).
  destruct Hin.
Qed.

Lemma recognised_whole_name f :
  f_is_file f = true -> registered (f_name f) ->
  recognised f = true /\ stem_of (f_name f) = "".
Proof.
  intros Hfile Hreg. assert (Hc := classify_whole_name _ Hreg).
  unfold recognised, ending_of, stem_of. rewrite Hc, Hfile. split; [|reflexivity].
  destruct Hreg as [_ Hne]. apply String.eqb_neq in Hne. now rewrite Hne.
Qed.

(** * Further properties *)

(** ** The calendar of [timestamp] *)

Section TimestampOrder.
Local Open Scope Z_scope.

Lemma ord2ymd_year_doy ordinal :
  Datetime.ord2ymd ordinal =
  let '(y, k, leap) := year_doy ordinal in
  (y, fst (month_day leap k), snd (month_day leap k)).
Proof.
  unfold Datetime.ord2ymd, year_doy, Datetime.DI400Y, Datetime.DI100Y, Datetime.DI4Y.
  cbv zeta.
  destruct ((_ =? 4) || (_ =? 4)); [reflexivity|].
  unfold month_day. cbv zeta.
  destruct (_ >? _); reflexivity.
Qed.

Lemma year_doy_mono n n' :
  n < n' ->
  let '(y, k, _) := year_doy n in
  let '(y', k', _) := year_doy n' in
  y < y' \/ (y = y' /\ k < k').
Proof.
  intros H. unfold year_doy. cbv zeta.
  destruct ((_ =? 4) || (_ =? 4)) eqn:E1; destruct ((_ =? 4) || (_ =? 4)) eqn:E2 in |- *.
  all: try (apply orb_true_iff in E1; rewrite !Z.eqb_eq in E1).
  all: try (apply orb_false_iff in E1; rewrite !Z.eqb_neq in E1).
  all: try (apply orb_true_iff in E2; rewrite !Z.eqb_eq in E2).
  all: try (apply orb_false_iff in E2; rewrite !Z.eqb_neq in E2).
  all: Z.div_mod_to_equations; lia.
Qed.

Lemma year_doy_range n :
  1 <= n <= 3652059 ->
  let '(y, k, leap) := year_doy n in
  1 <= y <= 9999 /\ 0 <= k <= 364 + Datetime.b2z leap /\ leap = is_leap y.
Proof.
  intros H. unfold year_doy, is_leap. cbv zeta.
  destruct ((_ =? 4) || (_ =? 4)) eqn:E1.
  - apply orb_true_iff in E1; rewrite !Z.eqb_eq in E1.
    split; [Z.div_mod_to_equations; lia|]. split; [simpl; lia|].
    symmetry. apply andb_true_iff. split.
    + apply Z.eqb_eq. Z.div_mod_to_equations; lia.
    + apply orb_true_iff.
      destruct E1 as [E1|E1].
      * left. apply negb_true_iff, Z.eqb_neq. Z.div_mod_to_equations; lia.
      * right. apply Z.eqb_eq. Z.div_mod_to_equations; lia.
  - apply orb_false_iff in E1; rewrite !Z.eqb_neq in E1.
    split; [Z.div_mod_to_equations; lia|].
    split; [destruct (_ && _); simpl; Z.div_mod_to_equations; lia|].
    repeat match goal with
    | |- context [Z.eqb ?a ?b] => destruct (Z.eqb_spec a b)
    end; simpl; try reflexivity; exfalso; Z.div_mod_to_equations; lia.
Qed.

Lemma month_day_checked_all leap : month_day_checked leap = true.
Proof. destruct leap; vm_compute; reflexivity. Qed.

Lemma month_day_at leap k :
  0 <= k <= 364 + Datetime.b2z leap ->
  md_ok (month_day leap k) = true
  /\ (k <> 0 -> md_key (month_day leap (k - 1)) < md_key (month_day leap k)).
Proof.
  intros Hk. assert (H := month_day_checked_all leap).
  unfold month_day_checked in H. rewrite forallb_forall in H.
  specialize (H (Z.to_nat k)). rewrite Z2Nat.id in H by lia.
  assert (Hin : In (Z.to_nat k) (seq 0 (365 + (if leap then 1 else 0)))).
  { apply in_seq. destruct leap; simpl in Hk; lia. }
  apply H in Hin. apply andb_true_iff in Hin as [H1 H2]. split; [exact H1|].
  intros Hne. apply orb_true_iff in H2 as [H2|H2]; [apply Z.eqb_eq in H2; lia|].
  now apply Z.ltb_lt.
Qed.

Lemma month_day_mono leap k k' :
  0 <= k -> k < k' -> k' <= 364 + Datetime.b2z leap ->
  md_key (month_day leap k) < md_key (month_day leap k').
Proof.
  intros H0 Hlt Hk'.
  replace k' with (k + 1 + Z.of_nat (Z.to_nat (k' - k - 1))) in * by lia.
  induction (Z.to_nat (k' - k - 1)) as [|j IH].
  - destruct (month_day_at leap (k + 1)) as [_ H]; [simpl in *; lia|].
    replace (k + 1 + Z.of_nat 0) with (k + 1) by lia.
    replace (k + 1 - 1) with k in H by lia. apply H. lia.
  - destruct (month_day_at leap (k + 1 + Z.of_nat (S j))) as [_ H]; [lia|].
    replace (k + 1 + Z.of_nat (S j) - 1) with (k + 1 + Z.of_nat j) in H by lia.
    specialize (H ltac:(lia)). specialize (IH ltac:(lia) ltac:(lia)). lia.
Qed.

(* The date fields grow with the ordinal, in lexicographic order. *)
Lemma ord2ymd_mono n n' :
  1 <= n -> n < n' -> n' <= 3652059 ->
  let '(y, m, d) := Datetime.ord2ymd n in
  let '(y', m', d') := Datetime.ord2ymd n' in
  y < y' \/ (y = y' /\ (m < m' \/ (m = m' /\ d < d'))).
Proof.
  intros H1 Hlt Hn'. rewrite !ord2ymd_year_doy.
  assert (Hm := year_doy_mono n n' Hlt).
  assert (Hr := year_doy_range n ltac:(lia)).
  assert (Hr' := year_doy_range n' ltac:(lia)).
  destruct (year_doy n) as [[y k] leap], (year_doy n') as [[y' k'] leap'].
  destruct Hm as [Hm|[-> Hk]]; [now left|right; split; [reflexivity|]].
  destruct Hr as (_ & Hk0 & ->), Hr' as (_ & Hk0' & ->).
  assert (Hmd := month_day_mono (is_leap y') k k' ltac:(lia) Hk ltac:(lia)).
  destruct (month_day_at (is_leap y') k ltac:(lia)) as [Ho _].
  destruct (month_day_at (is_leap y') k' ltac:(lia)) as [Ho' _].
  unfold md_key, md_ok in *.
  destruct (month_day (is_leap y') k) as [m d], (month_day (is_leap y') k') as [m' d'].
  simpl in *.
  repeat (apply andb_true_iff in Ho as [Ho ?]).
  repeat (apply andb_true_iff in Ho' as [Ho' ?]).
  rewrite ?Z.leb_le in *. lia.
Qed.

Lemma ord2ymd_range n :
  1 <= n <= 3652059 ->
  let '(y, m, d) := Datetime.ord2ymd n in
  1 <= y <= 9999 /\ 1 <= m <= 12 /\ 1 <= d <= 31.
Proof.
  intros H. rewrite ord2ymd_year_doy.
  assert (Hr := year_doy_range n H).
  destruct (year_doy n) as [[y k] leap]. destruct Hr as (Hy & Hk & _).
  destruct (month_day_at leap k Hk) as [Ho _]. unfold md_ok in Ho.
  destruct (month_day leap k) as [m d]. simpl in *.
  repeat (apply andb_true_iff in Ho as [Ho ?]).
  rewrite ?Z.leb_le in *. lia.
Qed.

Lemma compare_app_prefix p s t :
  String.compare (p ++ s) (p ++ t) = String.compare s t.
Proof.
  induction p as [|c p IH]; simpl; [reflexivity|].
  replace (Ascii.compare c c) with Eq; [exact IH|].
  symmetry. unfold Ascii.compare. apply N.compare_refl.
Qed.

Lemma digit_compare a b :
  (a mod 10 < b mod 10)%Z ->
  Ascii.compare (Datetime.digit a) (Datetime.digit b) = Lt.
Proof.
  intros Hlt. unfold Datetime.digit, Ascii.compare.
  assert (Ha := Z.mod_pos_bound a 10 ltac:(lia)).
  assert (Hb := Z.mod_pos_bound b 10 ltac:(lia)).
  rewrite N2Nat.inj_compare. change (N.to_nat (N_of_ascii ?x)) with (nat_of_ascii x).
  rewrite !nat_ascii_embedding by lia.
  apply Nat.compare_lt_iff. lia.
Qed.

Lemma zero_padded_lt w : forall a b s t,
  (0 <= a)%Z -> (a < b)%Z -> (b < 10 ^ Z.of_nat w)%Z ->
  String.compare (Datetime.zero_padded w a ++ s) (Datetime.zero_padded w b ++ t) = Lt.
Proof.
  induction w as [|w IH]; intros a b s t Ha Hlt Hb.
  - simpl in Hb. lia.
  - cbn [Datetime.zero_padded]. rewrite !app_string_assoc.
    rewrite Nat2Z.inj_succ, Z.pow_succ_r in Hb by lia.
    destruct (Z.eq_dec (a / 10) (b / 10)) as [He|Hne].
    + rewrite He, compare_app_prefix. cbn [String.append String.compare].
      rewrite digit_compare; [reflexivity|]. Z.div_mod_to_equations; lia.
    + assert (a / 10 < b / 10)%Z by (Z.div_mod_to_equations; lia).
      assert (0 <= a / 10)%Z by (Z.div_mod_to_equations; lia).
      assert (b / 10 < 10 ^ Z.of_nat w)%Z.
      { apply Z.div_lt_upper_bound; lia. }
      now apply IH.
Qed.

Lemma leb_field w a b s t :
  (0 <= a)%Z -> (a <= b)%Z -> (b < 10 ^ Z.of_nat w)%Z ->
  (a = b -> String.leb s t = true) ->
  String.leb (Datetime.zero_padded w a ++ s) (Datetime.zero_padded w b ++ t) = true.
Proof.
  intros Ha Hle Hb Hs. unfold String.leb.
  destruct (Z.eq_dec a b) as [->|Hne].
  - rewrite compare_app_prefix. now apply Hs.
  - rewrite zero_padded_lt by lia. reflexivity.
Qed.

Lemma leb_sep c s t :
  String.leb s t = true -> String.leb (String c s) (String c t) = true.
Proof. exact (fun H => eq_trans (f_equal (fun x => if x is Gt then false else true) (compare_app_prefix (String c "") s t)) H). Qed.

Lemma no_plus_app s t : no_plus (s ++ t) = no_plus s && no_plus t.
Proof.
  unfold no_plus. induction s as [|c s IH]; simpl; [reflexivity|].
  now rewrite IH, andb_assoc.
Qed.

Lemma digit_no_plus n : Ascii.eqb (Datetime.digit n) "+" = false.
Proof.
  apply Ascii.eqb_neq. intros H. apply (f_equal nat_of_ascii) in H.
  unfold Datetime.digit in H.
  assert (Hn := Z.mod_pos_bound n 10 ltac:(lia)).
  rewrite nat_ascii_embedding in H by lia.
  change (nat_of_ascii "+") with 43%nat in H. lia.
Qed.

Lemma zero_padded_no_plus w n : no_plus (Datetime.zero_padded w n) = true.
Proof.
  revert n; induction w as [|w IH]; intros n; [reflexivity|].
  cbn [Datetime.zero_padded]. rewrite no_plus_app, IH.
  unfold no_plus. cbn [Str.forallb]. now rewrite digit_no_plus.
Qed.

Lemma replace_suffix s :
  no_plus s = true ->
  Datetime.replace (s ++ "+00:00") "+00:00" "Z" = (s ++ "Z")%string.
Proof.
  unfold Datetime.replace, no_plus.
  induction s as [|c s IH]; [reflexivity|].
  cbn [Str.forallb]. intros H. apply andb_true_iff in H as [Hc Hs].
  cbn [String.append Datetime.replace_from Str.startswith].
  apply negb_true_iff in Hc. rewrite Ascii.eqb_sym, Hc. cbn [andb].
  now rewrite IH.
Qed.

Lemma zero_padded_length w n : String.length (Datetime.zero_padded w n) = w.
Proof.
  revert n; induction w as [|w IH]; intros n; [reflexivity|].
  cbn [Datetime.zero_padded]. rewrite length_app, IH. simpl. lia.
Qed.

(* The rendering of [timestamp]: the date and time fields, the fraction
   when there is one, and "Z". *)
Lemma timestamp_render f :
  let us := f_mtime f in
  let secs := us / 1000000 in
  let sod := secs mod 86400 in
  let '(y, m, d) := Datetime.ord2ymd (secs / 86400 + Datetime.EPOCH_ORDINAL) in
  timestamp f
  = render y m d (sod / 3600) (sod mod 3600 / 60) (sod mod 60)
           (fraction (us mod 1000000) ++ "Z").
Proof.
  cbv zeta. unfold timestamp, Datetime.isoformat_utc. cbv zeta.
  destruct (Datetime.ord2ymd _) as [[y m] d].
  fold (fraction (f_mtime f mod 1000000)).
  set (fr := fraction _).
  set (hh := _ / 3600). set (mm := _ / 60). set (ss := _ mod 60).
  transitivity (Datetime.replace (render y m d hh mm ss fr ++ "+00:00") "+00:00" "Z").
  { unfold render. rewrite !app_string_assoc. reflexivity. }
  rewrite replace_suffix.
  - unfold render. now rewrite !app_string_assoc.
  - unfold render. rewrite !no_plus_app, !zero_padded_no_plus.
    unfold fr, fraction. destruct (_ =? 0); [reflexivity|].
    rewrite no_plus_app, zero_padded_no_plus. reflexivity.
Qed.

Lemma render_leb y m d hh mm ss tail y' m' d' hh' mm' ss' tail' :
  0 <= y < 10000 -> 0 <= m < 100 -> 0 <= d < 100 ->
  0 <= hh < 100 -> 0 <= mm < 100 -> 0 <= ss < 100 ->
  0 <= y' < 10000 -> 0 <= m' < 100 -> 0 <= d' < 100 ->
  0 <= hh' < 100 -> 0 <= mm' < 100 -> 0 <= ss' < 100 ->
  y <= y' ->
  (y = y' -> m <= m') ->
  (y = y' -> m = m' -> d <= d') ->
  (y = y' -> m = m' -> d = d' -> hh <= hh') ->
  (y = y' -> m = m' -> d = d' -> hh = hh' -> mm <= mm') ->
  (y = y' -> m = m' -> d = d' -> hh = hh' -> mm = mm' -> ss <= ss') ->
  (y = y' -> m = m' -> d = d' -> hh = hh' -> mm = mm' -> ss = ss' ->
   String.leb tail tail' = true) ->
  String.leb (render y m d hh mm ss tail) (render y' m' d' hh' mm' ss' tail') = true.
Proof.
  intros. unfold render.
  apply leb_field; [lia | lia | simpl; lia | intros ->].
  apply leb_sep.
  apply leb_field; [lia | auto | simpl; lia | intros ->].
  apply leb_sep.
  apply leb_field; [lia | auto | simpl; lia | intros ->].
  apply leb_sep.
  apply leb_field; [lia | auto | simpl; lia | intros ->].
  apply leb_sep.
  apply leb_field; [lia | auto | simpl; lia | intros ->].
  apply leb_sep.
  apply leb_field; [lia | auto | simpl; lia | intros ->].
  auto.
Qed.

Lemma clock_fields us us' :
  us <= us' ->
  let n := us / 1000000 / 86400 in
  let n' := us' / 1000000 / 86400 in
  let sod := (us / 1000000) mod 86400 in
  let sod' := (us' / 1000000) mod 86400 in
  n <= n'
  /\ (n = n' ->
      sod / 3600 <= sod' / 3600
      /\ (sod / 3600 = sod' / 3600 ->
          sod mod 3600 / 60 <= sod' mod 3600 / 60
          /\ (sod mod 3600 / 60 = sod' mod 3600 / 60 ->
              sod mod 60 <= sod' mod 60
              /\ (sod mod 60 = sod' mod 60 ->
                  us mod 1000000 <= us' mod 1000000)))).
Proof. intros H. cbv zeta. Z.div_mod_to_equations. lia. Qed.

Lemma clock_range us :
  let sod := (us / 1000000) mod 86400 in
  0 <= sod / 3600 < 100 /\ 0 <= sod mod 3600 / 60 < 100 /\ 0 <= sod mod 60 < 100
  /\ 0 <= us mod 1000000 < 1000000.
Proof. cbv zeta. Z.div_mod_to_equations. lia. Qed.

Lemma ordinal_range f :
  representable f ->
  1 <= f_mtime f / 1000000 / 86400 + Datetime.EPOCH_ORDINAL <= 3652059.
Proof.
  unfold representable, MIN_MTIME, MAX_MTIME, Datetime.EPOCH_ORDINAL.
  intros H. Z.div_mod_to_equations. lia.
Qed.

(* Among timestamps that all have a fraction or all have none, the
   order of the strings is the order of the times. *)
Lemma timestamp_leb f g :
  representable f -> representable g ->
  whole_second f = whole_second g ->
  f_mtime f <= f_mtime g ->
  String.leb (timestamp f) (timestamp g) = true.
Proof.
  intros Hf Hg Hw Hle.
  assert (Tf := timestamp_render f). assert (Tg := timestamp_render g).
  cbv zeta in Tf, Tg.
  assert (Rf := ordinal_range f Hf). assert (Rg := ordinal_range g Hg).
  assert (Cf := clock_range (f_mtime f)). assert (Cg := clock_range (f_mtime g)).
  assert (C := clock_fields _ _ Hle). cbv zeta in Cf, Cg, C.
  set (n := f_mtime f / 1000000 / 86400) in *.
  set (n' := f_mtime g / 1000000 / 86400) in *.
  assert (Df := ord2ymd_range _ Rf). assert (Dg := ord2ymd_range _ Rg).
  assert (Dm : n < n' -> _) by
    (intros Hlt; exact (ord2ymd_mono (n + Datetime.EPOCH_ORDINAL)
                          (n' + Datetime.EPOCH_ORDINAL)
                          ltac:(lia) ltac:(lia) ltac:(lia))).
  assert (De : n = n' -> Datetime.ord2ymd (n + Datetime.EPOCH_ORDINAL)
                         = Datetime.ord2ymd (n' + Datetime.EPOCH_ORDINAL))
    by (intros ->; reflexivity).
  destruct (Datetime.ord2ymd (n + _)) as [[y m] d].
  destruct (Datetime.ord2ymd (n' + _)) as [[y' m'] d'].
  rewrite Tf, Tg. clear Tf Tg.
  destruct C as [Cn C].
  assert (Hdate : y < y' \/ (y = y' /\ (m < m' \/ (m = m' /\ d < d')))
                  \/ (n = n' /\ y = y' /\ m = m' /\ d = d')).
  { destruct (Z.eq_dec n n') as [E|E].
    - right. specialize (De E). inversion De. auto.
    - destruct (Dm ltac:(lia)); auto. }
  assert (Hsame : y = y' -> m = m' -> d = d' -> n = n').
  { intros. destruct Hdate as [?|[[? [?|[? ?]]]|[? ?]]]; lia. }
  apply render_leb; try lia.
  intros E1 E2 E3 E4 E5 E6. specialize (C ltac:(auto)).
  assert (Hmicro : f_mtime f mod 1000000 <= f_mtime g mod 1000000) by lia.
  unfold whole_second in Hw. unfold fraction.
  destruct (Z.eqb_spec (f_mtime f mod 1000000) 0) as [Zf|Zf];
    destruct (Z.eqb_spec (f_mtime g mod 1000000) 0) as [Zg|Zg];
    try discriminate Hw.
  - apply leb_refl.
  - rewrite !app_string_assoc. apply leb_sep.
    apply leb_field; [lia | lia | simpl; lia | intros _; apply leb_refl].
Qed.


Lemma leb_empty s : String.leb "" s = true.
Proof. now destruct s. Qed.

Lemma max_timestamp_ub files f :
  In f files -> String.leb (timestamp f) (max_timestamp files) = true.
Proof.
  induction files as [|g files IH] using rev_ind; [intros []|].
  rewrite max_timestamp_snoc, in_app_iff. intros [H|[<-|[]]].
  - eapply leb_trans; [apply IH, H | apply max_ub_l].
  - apply max_ub_r.
Qed.

Lemma max_timestamp_least files c :
  (forall f, In f files -> String.leb (timestamp f) c = true) ->
  String.leb (max_timestamp files) c = true.
Proof.
  induction files as [|g files IH] using rev_ind; intros H.
  - apply leb_empty.
  - rewrite max_timestamp_snoc. apply max_least.
    + apply IH. intros f Hf. apply H. rewrite in_app_iff. now left.
    + apply H. rewrite in_app_iff. right. now left.
Qed.

Lemma max_timestamp_In files :
  files <> [] -> In (max_timestamp files) (map timestamp files).
Proof.
  induction files as [|g files IH] using rev_ind; [congruence|]. intros _.
  rewrite max_timestamp_snoc, map_app, in_app_iff. simpl.
  destruct files as [|h files].
  - right. left. symmetry. apply max_empty_l.
  - unfold Str.max. destruct (String.ltb _ _); [now right; left|].
    left. apply IH. discriminate.
Qed.

(** Of files that all have a fraction or all have none, the greatest
    timestamp is that of the file modified last. *)
Lemma max_timestamp_latest files f :
  In f files ->
  (forall g, In g files ->
             representable g /\ whole_second g = whole_second f
             /\ f_mtime g <= f_mtime f) ->
  max_timestamp files = timestamp f.
Proof.
  intros Hin H. apply String.leb_antisym.
  - apply max_timestamp_least. intros g Hg.
    destruct (H g Hg) as (Rg & Wg & Lg). destruct (H f Hin) as (Rf & _ & _).
    now apply timestamp_leb.
  - now apply max_timestamp_ub.
Qed.



(** X2.  When the recognised files of the directory have modification
    times on whole seconds (within the years [datetime] can hold), the
    [updated] of every entry is the timestamp of the file of that book
    modified last, and the [updated] of the feed the timestamp of the
    recognised file modified last. *)
Theorem updated_is_latest_on_whole_seconds parser_feed directory url :
  (forall g, In g directory -> recognised g = true ->
             representable g /\ whole_second g = true) ->
  let files := sorted directory in
  exists log,
    make_tree parser_feed directory url
    = Some (feed_node url (max_timestamp (filter recognised files))
              (map (fun stem =>
                      Dict "entry" None []
                        (Some (text_item "id" (url ++ Urllib.quote stem)
                               :: text_item "updated" (max_timestamp (group stem files))
                               :: List.tl (List.tl (entry_head parser_feed url stem files))
                               ++ links_of url stem files)%list))
                   (stems_seen files)),
            log)
    /\ (forall stem f,
          In f (group stem files) ->
          (forall g, In g (group stem files) -> f_mtime g <= f_mtime f) ->
          max_timestamp (group stem files) = timestamp f)
    /\ (forall f,
          In f (filter recognised files) ->
          (forall g, In g (filter recognised files) -> f_mtime g <= f_mtime f) ->
          max_timestamp (filter recognised files) = timestamp f).
Proof.
  intros H files. rewrite make_tree_closed. eexists. split; [reflexivity|].
  assert (Hrec : forall g, In g (filter recognised files) ->
                           representable g /\ whole_second g = true).
  { intros g Hg. apply filter_In in Hg as [Hg Hr]. apply H; [|exact Hr].
    apply Permutation_in with files; [apply sorted_permutation | exact Hg]. }
  assert (Hgrp : forall stem g, In g (group stem files) ->
                                In g (filter recognised files)).
  { intros stem g Hg. apply filter_In in Hg as [Hg Hp].
    apply andb_true_iff in Hp as [Hr _]. apply filter_In. auto. }
  split.
  - intros stem f Hf Hmax. apply max_timestamp_latest; [exact Hf|].
    intros g Hg. destruct (Hrec g (Hgrp _ _ Hg)) as [Rg Wg].
    destruct (Hrec f (Hgrp _ _ Hf)) as [_ Wf].
    repeat split; try apply Rg; [congruence | auto].
  - intros f Hf Hmax. apply max_timestamp_latest; [exact Hf|].
    intros g Hg. destruct (Hrec g Hg) as [Rg Wg]. destruct (Hrec f Hf) as [_ Wf].
    repeat split; try apply Rg; [congruence | auto].
Qed.

Lemma updated_is_latest_on_whole_seconds_witness :
  let a := mkFile "book.epub" true 951782399000000 [] [] in
  let b := mkFile "book.pdf" true 951782400000000 [] [] in
  max_timestamp (group "book" (sorted [b; a])) = timestamp b.
Proof.
  intros a b.
  destruct (updated_is_latest_on_whole_seconds parser_feed0 [b; a] "u/")
    as (log & _ & Hg & _).
  - intros g [<-|[<-|[]]] _; (split; [|reflexivity]);
      unfold representable, MIN_MTIME, MAX_MTIME; simpl; lia.
  - apply Hg.
    + right. now left.
    + intros g [<-|[<-|[]]]; simpl; lia.
Defined.

Lemma render_length y m d hh mm ss tail :
  String.length (render y m d hh mm ss tail) = (19 + String.length tail)%nat.
Proof.
  unfold render. rewrite !length_app, !zero_padded_length. simpl. lia.
Qed.

Lemma render_no_plus y m d hh mm ss tail :
  no_plus (render y m d hh mm ss tail) = no_plus tail.
Proof.
  unfold render. rewrite !no_plus_app, !zero_padded_no_plus. reflexivity.
Qed.

(** X16.  A timestamp is a text of 19 characters for a time on a whole
    second, and of 26 otherwise, without any "+", followed by "Z": the
    offset "+00:00" of the UTC time is always replaced, and only it. *)
Theorem timestamp_ends_with_Z f :
  exists body,
    timestamp f = (body ++ "Z")%string
    /\ String.length body = (if whole_second f then 19 else 26)%nat
    /\ no_plus body = true.
Proof.
  assert (H := timestamp_render f). cbv zeta in H.
  destruct (Datetime.ord2ymd _) as [[y m] d].
  set (sod := (f_mtime f / 1000000) mod 86400) in *.
  exists (render y m d (sod / 3600) (sod mod 3600 / 60) (sod mod 60)
                 (fraction (f_mtime f mod 1000000))).
  split; [|split].
  - rewrite H. unfold render. now rewrite !app_string_assoc.
  - rewrite render_length. unfold whole_second, fraction.
    destruct (_ =? 0); [reflexivity|].
    rewrite length_app, zero_padded_length. reflexivity.
  - rewrite render_no_plus. unfold fraction.
    destruct (_ =? 0); [reflexivity|].
    rewrite no_plus_app, zero_padded_no_plus. reflexivity.
Qed.

End TimestampOrder.

(** ** The listing *)

Lemma ascending_unique l : forall l',
  ascending l -> ascending l' -> Permutation l l' ->
  NoDup (map f_name l) -> l = l'.
Proof.
  unfold ascending. induction l as [|a l IH]; intros l' Hl Hl' Hp Hnd.
  - now apply Permutation_nil in Hp.
  - destruct l' as [|b l'].
    { apply Permutation_sym, Permutation_nil in Hp. discriminate. }
    inversion Hl as [|? ? Ha Hl0]; subst. inversion Hl' as [|? ? Hb Hl0']; subst.
    inversion Hnd as [|? ? Hna Hnd0]; subst.
    assert (Hab : a = b).
    { assert (Hb_in : In b (a :: l)).
      { apply Permutation_in with (b :: l'); [now symmetry | now left]. }
      assert (Ha_in : In a (b :: l')).
      { apply Permutation_in with (a :: l); [exact Hp | now left]. }
      destruct Hb_in as [E|Hb_in]; [exact E|].
      destruct Ha_in as [E|Ha_in]; [now symmetry|].
      rewrite Forall_forall in Ha, Hb.
      assert (E : f_name a = f_name b).
      { apply String.leb_antisym; [apply Ha, Hb_in | apply Hb, Ha_in]. }
      exfalso. apply Hna. rewrite E. now apply in_map. }
    subst b. f_equal. apply IH; auto.
    now apply Permutation_cons_inv with a.
Qed.

(** X3.  The feed does not depend on the order in which the directory
    yields its entries: two listings of the same entries, no two with
    the same name, give the same tree and the same printed lines. *)
Theorem make_tree_ignores_listing_order parser_feed directory directory' url :
  NoDup (map f_name directory) ->
  Permutation directory directory' ->
  make_tree parser_feed directory url = make_tree parser_feed directory' url.
Proof.
  intros Hnd Hp. unfold make_tree. f_equal.
  apply ascending_unique; try apply sorted_ascending.
  - eapply Permutation_trans; [apply sorted_permutation|].
    eapply Permutation_trans; [exact Hp|]. symmetry. apply sorted_permutation.
  - eapply Permutation_NoDup; [|exact Hnd].
    apply Permutation_map. symmetry. apply sorted_permutation.
Qed.

Lemma make_tree_ignores_listing_order_witness :
  let a := mkFile "book.pdf" true 0 [] [] in
  let b := mkFile "book.epub" true 1000000 [] [] in
  let c := mkFile "notes" false 5 [] [] in
  make_tree parser_feed0 [a; b; c] "u/" = make_tree parser_feed0 [c; b; a] "u/".
Proof.
  intros a b c. apply make_tree_ignores_listing_order.
  - repeat constructor; simpl; intuition discriminate.
  - apply Permutation_rev with (l := [a; b; c]).
Defined.

Lemma recognised_is_file f : recognised f = true -> f_is_file f = true.
Proof. unfold recognised. intros H. now apply andb_true_iff in H as [H _]. Qed.

Lemma unrecognised_is_file f : unrecognised f = true -> f_is_file f = true.
Proof. unfold unrecognised. intros H. now apply andb_true_iff in H as [H _]. Qed.

(** X4.  An entry of the directory that is not a regular file (a
    subdirectory) adds nothing to the feed and prints nothing: the
    result is that of the directory without such entries. *)
Theorem make_tree_ignores_non_files parser_feed directory url :
  make_tree parser_feed directory url
  = make_tree parser_feed (filter f_is_file directory) url.
Proof.
  rewrite !make_tree_closed. rewrite <- (filter_sorted f_is_file).
  rewrite (filter_filter_implied recognised f_is_file) by apply recognised_is_file.
  rewrite (filter_filter_implied unrecognised f_is_file) by apply unrecognised_is_file.
  rewrite (stems_seen_filter f_is_file) by apply recognised_is_file.
  do 3 f_equal. apply map_ext. intros stem. symmetry.
  apply entry_of_filter, recognised_is_file.
Qed.

Lemma stems_seen_none files :
  (forall f, In f files -> recognised f = false) -> stems_seen files = [].
Proof.
  intros H. destruct (stems_seen files) as [|s l] eqn:E; [reflexivity|].
  assert (Hs : In s (stems_seen files)) by (rewrite E; now left).
  apply stems_seen_In in Hs as (f & Hf & Hr & _).
  rewrite (H f Hf) in Hr. discriminate.
Qed.

Lemma filter_none {A : Type} (p : A -> bool) l :
  (forall x, In x l -> p x = false) -> filter p l = [].
Proof.
  induction l as [|x l IH]; intros H; simpl; [reflexivity|].
  rewrite (H x) by now left. apply IH. intros y Hy. apply H. now right.
Qed.

(** X5.  A directory without any recognised file (an empty directory
    among them) gives a feed with no entry and an empty [updated]: the
    five children of the feed and nothing else. *)
Theorem no_recognised_file_no_entry parser_feed directory url :
  (forall f, In f directory -> recognised f = false) ->
  make_tree parser_feed directory url
  = Some (Dict "feed" (Some FEED_NAMESPACE) []
            (Some [ text_item "title" "Michael Young's ebooks";
                    text_item "id" (url ++ FEED_FILENAME);
                    text_item "updated" "";
                    Dict "author" None [] (Some [text_item "name" "Michael Young"]);
                    Dict "link" None
                         [("rel", "self"); ("type", "application/atom+xml");
                          ("href", url)] None ]),
          map diagnostic (filter unrecognised (sorted directory))).
Proof.
  intros H. rewrite make_tree_closed.
  assert (H' : forall f, In f (sorted directory) -> recognised f = false).
  { intros f Hf. apply H. apply Permutation_in with (sorted directory); auto.
    apply sorted_permutation. }
  now rewrite (stems_seen_none _ H'), (filter_none _ _ H').
Qed.

Lemma no_recognised_file_no_entry_witness :
  make_tree parser_feed0 [] "u/"
  = Some (Dict "feed" (Some FEED_NAMESPACE) []
            (Some [ text_item "title" "Michael Young's ebooks";
                    text_item "id" ("u/" ++ FEED_FILENAME);
                    text_item "updated" "";
                    Dict "author" None [] (Some [text_item "name" "Michael Young"]);
                    Dict "link" None
                         [("rel", "self"); ("type", "application/atom+xml");
                          ("href", "u/")] None ]),
          []).
Proof.
  apply (no_recognised_file_no_entry parser_feed0 [] "u/"). intros f [].
Defined.

(** ** Which files are skipped *)

Lemma ending_of_registered name :
  ending_of name <> "" ->
  registered (ending_of name)
  /\ Str.endswith name (ending_of name) = true
  /\ stem_of name ++ ending_of name = name.
Proof.
  intros Hne. assert (H := classify_total name). unfold classify in H.
  destruct (classify_in_sound _ _ _ _ _ H) as (Hin & He & Hs).
  split; [|split; [exact He|]].
  - split; [|exact Hne]. apply in_map_iff. now exists (ending_of name, attributes_of name).
  - rewrite Hs. now apply slice_to_neg_app.
Qed.

Lemma ending_of_empty_iff name :
  ending_of name = "" <->
  forall s, registered s -> Str.endswith name s = false.
Proof.
  assert (H := classify_total name). unfold classify in H. split.
  - intros He s [Hin Hne].
    destruct (Str.endswith name s) eqn:Hs; [|reflexivity].
    assert (Hl := classify_in_longest _ _ _ _ _ _ FORMATS_most_specific_first H Hin Hs).
    rewrite He in Hl. destruct s; [congruence | simpl in Hl; lia].
  - intros Hno. destruct (String.eqb_spec (ending_of name) "") as [E|E]; [exact E|].
    destruct (ending_of_registered name E) as (Hr & He & _).
    rewrite (Hno _ Hr) in He. discriminate.
Qed.



(** ** Links and groups *)

Lemma concat_groups_other pre f ks :
  ~ In (stem_of (f_name f)) ks ->
  List.concat (map (fun s => group s (pre ++ [f])) ks)
  = List.concat (map (fun s => group s pre) ks).
Proof.
  intros Hn. f_equal. apply map_ext_in. intros s Hs.
  apply group_other. intros E. apply Hn. now rewrite E.
Qed.

Lemma concat_groups_same pre f ks :
  recognised f = true -> NoDup ks -> In (stem_of (f_name f)) ks ->
  Permutation (List.concat (map (fun s => group s (pre ++ [f])) ks))
              (List.concat (map (fun s => group s pre) ks) ++ [f]).
Proof.
  intros Hr. induction ks as [|k ks IH]; [intros _ []|].
  intros Hnd Hin. inversion Hnd as [|? ? Hk Hnd']; subst. simpl.
  destruct (String.eqb_spec (stem_of (f_name f)) k) as [<-|Hne].
  - rewrite group_same by exact Hr. rewrite concat_groups_other by exact Hk.
    rewrite <- !app_assoc. apply Permutation_app_head, Permutation_app_comm.
  - destruct Hin as [E|Hin]; [congruence|].
    rewrite group_other by exact Hne. rewrite <- app_assoc.
    apply Permutation_app_head, IH; auto.
Qed.

(** Every recognised file is in the group of exactly one of the stems
    seen. *)
Lemma groups_partition files :
  Permutation (List.concat (map (fun s => group s files) (stems_seen files)))
              (filter recognised files).
Proof.
  induction files as [|f pre IH] using rev_ind; [constructor|].
  rewrite filter_app, stems_seen_app. simpl.
  destruct (recognised f) eqn:Hr; simpl.
  - destruct (mem (stem_of (f_name f)) (stems_seen pre)) eqn:Hm; simpl.
    + apply mem_In in Hm.
      eapply Permutation_trans;
        [apply concat_groups_same; auto using stems_seen_NoDup|].
      now apply Permutation_app_tail.
    + apply mem_false in Hm.
      rewrite map_app, concat_app. simpl. rewrite app_nil_r.
      rewrite concat_groups_other by exact Hm.
      rewrite group_same, (group_nil _ _ Hm) by exact Hr. simpl.
      now apply Permutation_app_tail.
  - rewrite app_nil_r.
    replace (map (fun s => group s (pre ++ [f])) (stems_seen pre))
      with (map (fun s => group s pre) (stems_seen pre)); [exact IH|].
    apply map_ext. intros s. symmetry. now apply group_skip.
Qed.

Lemma group_not_nil stem files : In stem (stems_seen files) -> group stem files <> [].
Proof.
  intros H E. apply stems_seen_In in H as (f & Hf & Hr & Hs).
  assert (Hg : In f (group stem files)).
  { apply filter_In. split; [exact Hf|]. now rewrite Hr, Hs, String.eqb_refl. }
  rewrite E in Hg. destruct Hg.
Qed.

(** X7.  Every recognised file of the directory gets exactly one link
    in the feed, in exactly one entry, and no entry is without a link:
    the links of all the entries together are, up to order, the links
    of the recognised files. *)
Theorem every_recognised_file_has_one_link parser_feed directory url :
  let files := sorted directory in
  exists latest log,
    make_tree parser_feed directory url
    = Some (feed_node url latest
              (map (fun stem =>
                      Dict "entry" None []
                        (Some (entry_head parser_feed url stem files
                               ++ links_of url stem files)%list))
                   (stems_seen files)),
            log)
    /\ (forall stem, In stem (stems_seen files) -> links_of url stem files <> [])
    /\ Permutation
         (List.concat (map (fun stem => links_of url stem files) (stems_seen files)))
         (map (link_of url) (filter recognised directory)).
Proof.
  intros files. rewrite make_tree_closed. do 2 eexists.
  split; [reflexivity|]. split.
  - intros stem Hs E. apply (group_not_nil _ _ Hs).
    unfold links_of in E. now apply map_eq_nil in E.
  - unfold links_of.
    rewrite <- (map_map (fun s => group s files) (map (link_of url))).
    rewrite <- concat_map. apply Permutation_map.
    eapply Permutation_trans; [apply groups_partition|].
    apply filter_permutation, sorted_permutation.
Qed.

Lemma every_recognised_file_has_one_link_witness :
  let a := mkFile "book.epub" true 0 [] [] in
  links_of "u/" "book" (sorted [a]) <> [].
Proof.
  intros a.
  destruct (every_recognised_file_has_one_link parser_feed0 [a] "u/")
    as (latest & log & _ & H & _).
  apply (H "book"). now left.
Defined.

(** X8.  The [updated] of an entry is the timestamp of one of the files
    of its book and, as a string, no smaller than the timestamp of any
    of them; the [updated] of the feed is no smaller than that of any
    entry. *)
Theorem updated_is_a_file_timestamp parser_feed directory url :
  let files := sorted directory in
  exists log,
    make_tree parser_feed directory url
    = Some (feed_node url (max_timestamp (filter recognised files))
              (map (fun stem =>
                      Dict "entry" None []
                        (Some (text_item "id" (url ++ Urllib.quote stem)
                               :: text_item "updated" (max_timestamp (group stem files))
                               :: List.tl (List.tl (entry_head parser_feed url stem files))
                               ++ links_of url stem files)%list))
                   (stems_seen files)),
            log)
    /\ forall stem,
        In stem (stems_seen files) ->
        In (max_timestamp (group stem files)) (map timestamp (group stem files))
        /\ (forall f, In f (group stem files) ->
                      String.leb (timestamp f) (max_timestamp (group stem files)) = true)
        /\ String.leb (max_timestamp (group stem files))
                      (max_timestamp (filter recognised files)) = true.
Proof.
  intros files. rewrite make_tree_closed. eexists. split; [reflexivity|].
  intros stem Hs. split; [|split].
  - apply max_timestamp_In. now apply group_not_nil.
  - intros f Hf. now apply max_timestamp_ub.
  - apply max_timestamp_least. intros f Hf. apply max_timestamp_ub.
    apply filter_In in Hf as [Hf Hp]. apply andb_true_iff in Hp as [Hr _].
    apply filter_In. auto.
Qed.

Lemma updated_is_a_file_timestamp_witness :
  let a := mkFile "book.epub" true 1577836800500000 [] [] in
  let b := mkFile "book.pdf" true 1577836800000000 [] [] in
  In (max_timestamp (group "book" (sorted [a; b])))
     (map timestamp (group "book" (sorted [a; b]))).
Proof.
  intros a b.
  destruct (updated_is_a_file_timestamp parser_feed0 [a; b] "u/") as (log & _ & H).
  apply (H "book"). now left.
Defined.

(** ** Metadata *)

(** X9.  The metadata of a pdf has the title and the author of its
    document information, under "/Title" and "/Author", and nothing
    else: a pdf never gives a content. *)
Theorem pdf_metadata_is_title_and_author f :
  dict_get (get_pdf_metadata f) "title" = dict_get (f_pdf_info f) "/Title"
  /\ dict_get (get_pdf_metadata f) "author" = dict_get (f_pdf_info f) "/Author"
  /\ forall key, key <> "title" -> key <> "author" ->
                 dict_get (get_pdf_metadata f) key = None.
Proof.
  unfold get_pdf_metadata. cbn [fold_left fst snd].
  destruct (dict_get (f_pdf_info f) "/Author") as [a|];
    destruct (dict_get (f_pdf_info f) "/Title") as [t|];
    (split; [reflexivity|split; [reflexivity|]]); intros key H1 H2;
    match goal with
    | |- dict_get ?m key = None =>
        let m' := eval vm_compute in m in change m with m'
    end;
    cbn [dict_get];
    repeat match goal with
    | |- context [String.eqb ?x key] =>
        destruct (String.eqb_spec x key); [congruence|]
    end; reflexivity.
Qed.

Lemma pdf_metadata_is_title_and_author_witness :
  dict_get (get_pdf_metadata (mkFile "a.pdf" true 0 [("/Title", "T")] [])) "content"
  = None.
Proof.
  apply (proj2 (proj2 (pdf_metadata_is_title_and_author
                         (mkFile "a.pdf" true 0 [("/Title", "T")] []))));
    discriminate.
Defined.

(** ** The choice of the extractor *)

Lemma drop_app_ge p e n : Str.drop (String.length p + n) (p ++ e) = Str.drop n e.
Proof. induction p as [|c p IH]; simpl; [reflexivity | exact IH]. Qed.

Lemma endswith_app_short p e x :
  String.length x <= String.length e ->
  Str.endswith (p ++ e) x = Str.endswith e x.
Proof.
  intros H. unfold Str.endswith. rewrite length_app.
  replace (String.length p + String.length e - String.length x)
    with (String.length p + (String.length e - String.length x)) by lia.
  rewrite drop_app_ge.
  replace (String.length x <=? String.length p + String.length e)%nat with true
    by (symmetry; apply Nat.leb_le; lia).
  replace (String.length x <=? String.length e)%nat with true
    by (symmetry; apply Nat.leb_le; lia).
  reflexivity.
Qed.

Lemma endswith_app_long p e x :
  String.length e <= String.length x -> Str.endswith x e = false ->
  Str.endswith (p ++ e) x = false.
Proof.
  intros Hl Hx. destruct (Str.endswith (p ++ e) x) eqn:H; [|reflexivity].
  rewrite (endswith_nested (p ++ e) e x) in Hx; auto using endswith_app.
Qed.

Lemma lower_app s t : Str.lower (s ++ t) = Str.lower s ++ Str.lower t.
Proof. induction s as [|c s IH]; simpl; [reflexivity | now rewrite IH]. Qed.

(** For a name under a registered ending, the tests on the lowered name
    say whether the ending is one of pdf, or one of epub. *)
Lemma extractor_by_ending name :
  ending_of name <> "" ->
  Str.endswith (Str.lower name) ".pdf"
  = mem (ending_of name) [".pdf"; "_cropped.pdf"]
  /\ Str.endswith (Str.lower name) ".epub"
     = mem (ending_of name) ["_advanced.epub"; ".kepub.epub"; ".epub"].
Proof.
  intros Hne. destruct (ending_of_registered name Hne) as ([Hin _] & _ & Hname).
  assert (Hl : Str.lower name
               = Str.lower (stem_of name) ++ Str.lower (ending_of name))
    by now rewrite <- lower_app, Hname.
  rewrite Hl. clear Hl Hname.
  set (p := Str.lower (stem_of name)). clearbody p.
  simpl in Hin.
  repeat (destruct Hin as [<-|Hin];
          [split;
           (rewrite endswith_app_short by (simpl; lia); reflexivity)
           || (rewrite endswith_app_long by (simpl; auto; lia); reflexivity)|]).
  destruct Hin as [E|[]]. congruence.
Qed.

(** X11.  For a recognised file the extractor is chosen by the ending
    it was classified under: the pdf extractor for ".pdf" and
    "_cropped.pdf", the epub extractor for "_advanced.epub",
    ".kepub.epub" and ".epub", and no metadata at all for the other
    kinds; lowering the name changes nothing for such a file. *)
Theorem extractor_follows_classification f :
  recognised f = true ->
  extract_metadata f
  = if mem (ending_of (f_name f)) [".pdf"; "_cropped.pdf"]
    then get_pdf_metadata f
    else if mem (ending_of (f_name f)) ["_advanced.epub"; ".kepub.epub"; ".epub"]
         then get_epub_metadata f
         else [].
Proof.
  intros Hr. unfold recognised in Hr. apply andb_true_iff in Hr as [_ Hne].
  apply negb_true_iff, String.eqb_neq in Hne.
  destruct (extractor_by_ending _ Hne) as [Hp He].
  unfold extract_metadata. now rewrite Hp, He.
Qed.

Lemma extractor_follows_classification_witness :
  extract_metadata (mkFile "Scan_cropped.pdf" true 0 [("/Title", "T")] [("title", "U")])
  = [("title", "T")].
Proof.
  rewrite (extractor_follows_classification
             (mkFile "Scan_cropped.pdf" true 0 [("/Title", "T")] [("title", "U")]));
    reflexivity.
Defined.

Lemma last_write_default key default files :
  (forall f, In f files -> dict_get (extract_metadata f) key = None) ->
  last_write key default files = default.
Proof.
  induction files as [|f files IH] using rev_ind; intros H; [reflexivity|].
  rewrite last_write_snoc, (H f) by (rewrite in_app_iff; right; now left).
  apply IH. intros g Hg. apply H. rewrite in_app_iff. now left.
Qed.

(** X12.  A book none of whose files is a pdf or an epub keeps the
    defaults in its entry: its stem as title, "Unknown" as author and an
    empty content. *)
Theorem book_without_pdf_or_epub_keeps_defaults parser_feed directory url stem :
  let files := sorted directory in
  In stem (stems_seen files) ->
  (forall f, In f (group stem files) ->
             mem (ending_of (f_name f))
                 [".pdf"; "_cropped.pdf"; "_advanced.epub"; ".kepub.epub"; ".epub"]
             = false) ->
  exists latest log before after,
    make_tree parser_feed directory url
    = Some (feed_node url latest
              (before
               ++ Dict "entry" None []
                    (Some (text_item "id" (url ++ Urllib.quote stem)
                           :: text_item "updated" (max_timestamp (group stem files))
                           :: text_item "title" stem
                           :: Dict "author" None [] (Some [text_item "name" "Unknown"])
                           :: Dict "content" None [("type", "text")] (Some [Str ""])
                           :: links_of url stem files))
               :: after)%list,
            log).
Proof.
  intros files Hs Hkind. rewrite make_tree_closed.
  apply in_split in Hs as (l1 & l2 & Hs). fold files. rewrite Hs.
  exists (max_timestamp (filter recognised files)),
         (map diagnostic (filter unrecognised files)),
         (map (entry_of parser_feed url files) l1),
         (map (entry_of parser_feed url files) l2).
  rewrite map_app. cbn [map]. do 4 f_equal.
  assert (Hnone : forall key f, In f (group stem files) ->
                                dict_get (extract_metadata f) key = None).
  { intros key f Hf. assert (Hk := Hkind f Hf).
    apply filter_In in Hf as [_ Hp]. apply andb_true_iff in Hp as [Hr _].
    rewrite (extractor_follows_classification f Hr).
    unfold mem in *. cbn [existsb] in *.
    repeat match type of Hk with
    | (_ || _)%bool = false => apply orb_false_iff in Hk as [? Hk]
    end.
    repeat match goal with
    | H : String.eqb _ _ = false |- _ => rewrite H; clear H
    end. reflexivity. }
  unfold entry_of, entry_head. cbn [List.app].
  rewrite !last_write_default by auto.
  unfold filter_html. reflexivity.
Qed.

Lemma book_without_pdf_or_epub_keeps_defaults_witness :
  let a := mkFile "map.jpg" true 0 [] [] in
  let b := mkFile "map.txt" true 0 [] [] in
  exists latest log before after,
    make_tree parser_feed0 [a; b] "u/"
    = Some (feed_node "u/" latest
              (before
               ++ Dict "entry" None []
                    (Some (text_item "id" ("u/" ++ Urllib.quote "map")
                           :: text_item "updated" (max_timestamp (group "map" (sorted [a; b])))
                           :: text_item "title" "map"
                           :: Dict "author" None [] (Some [text_item "name" "Unknown"])
                           :: Dict "content" None [("type", "text")] (Some [Str ""])
                           :: links_of "u/" "map" (sorted [a; b])))
               :: after)%list,
            log).
Proof.
  intros a b.
  apply (book_without_pdf_or_epub_keeps_defaults parser_feed0 [a; b] "u/" "map").
  - now left.
  - intros f [<-|[<-|[]]]; reflexivity.
Defined.

(** ** Percent-encoding *)

Lemma unquote_quote_byte c r :
  unquote (Urllib.quote_byte c ++ r) = String c (unquote r).
Proof. destruct c as [[] [] [] [] [] [] [] []]; reflexivity. Qed.

Lemma unquote_quote s : unquote (Urllib.quote s) = s.
Proof.
  induction s as [|c s IH]; [reflexivity|].
  cbn [Urllib.quote]. now rewrite unquote_quote_byte, IH.
Qed.

Lemma app_inv_head_string (p a b : string) : p ++ a = p ++ b -> a = b.
Proof.
  induction p as [|c p IH]; simpl; [auto|]. intros H. inversion H. auto.
Qed.

Lemma quoted_url_injective url a b :
  url ++ Urllib.quote a = url ++ Urllib.quote b -> a = b.
Proof.
  intros H. apply app_inv_head_string in H.
  rewrite <- (unquote_quote a), <- (unquote_quote b). now rewrite H.
Qed.

Lemma NoDup_map_injective {A B : Type} (g : A -> B) l :
  (forall a b, g a = g b -> a = b) -> NoDup l -> NoDup (map g l).
Proof.
  intros Hg. induction 1 as [|x l Hx Hnd IH]; simpl; constructor; [|exact IH].
  intros Hin. apply in_map_iff in Hin as (y & Hy & Hin).
  apply Hg in Hy. now subst.
Qed.

(** X13.  The percent-encoding of names loses nothing, so the ids of
    the entries of a feed are pairwise different, and the links of two
    files have the same href only if the files have the same name. *)
Theorem entry_ids_are_distinct parser_feed directory url :
  let files := sorted directory in
  exists latest log,
    make_tree parser_feed directory url
    = Some (feed_node url latest
              (map (fun stem =>
                      Dict "entry" None []
                        (Some (text_item "id" (url ++ Urllib.quote stem)
                               :: List.tl (entry_head parser_feed url stem files)
                               ++ links_of url stem files)%list))
                   (stems_seen files)),
            log)
    /\ NoDup (map (fun stem => url ++ Urllib.quote stem) (stems_seen files))
    /\ (forall f g,
          url ++ Urllib.quote (f_name f) = url ++ Urllib.quote (f_name g) ->
          f_name f = f_name g)
    /\ (forall s, unquote (Urllib.quote s) = s).
Proof.
  intros files. rewrite make_tree_closed. do 2 eexists.
  split; [reflexivity|]. split; [|split].
  - apply NoDup_map_injective; [|apply stems_seen_NoDup].
    intros a b. apply quoted_url_injective.
  - intros f g. apply quoted_url_injective.
  - apply unquote_quote.
Qed.

Lemma entry_ids_are_distinct_witness :
  let a := mkFile "a b.epub" true 0 [] [] in
  let b := mkFile "a%20b.epub" true 0 [] [] in
  NoDup (map (fun stem => "u/" ++ Urllib.quote stem) (stems_seen (sorted [a; b])))
  /\ unquote (Urllib.quote "a%20b") = "a%20b".
Proof.
  intros a b.
  destruct (entry_ids_are_distinct parser_feed0 [a; b] "u/")
    as (? & ? & _ & H1 & _ & H2).
  split; [exact H1 | apply H2].
Defined.

(** ** The links *)

(** X17.  The link of a recognised file has the href of the file, the
    base url followed by the percent-encoded name, as its first
    attribute, and after it the attributes of its format, among them a
    media type and a relation that is the acquisition or the image
    relation; the descriptor of the unknown type is never used for a
    link. *)
Theorem link_has_href_type_and_rel url f :
  recognised f = true ->
  exists rest children type rel,
    link_of url f
    = Dict "link" None (("href", url ++ Urllib.quote (f_name f)) :: rest) children
    /\ dict_get FORMATS (ending_of (f_name f)) = Some (mkAttributes rest children)
    /\ dict_get rest "type" = Some type
    /\ dict_get rest "rel" = Some rel
    /\ (rel = ACQUISITION \/ rel = IMAGE)
    /\ type <> "unknown".
Proof.
  intros Hr. unfold recognised in Hr. apply andb_true_iff in Hr as [_ Hne].
  apply negb_true_iff, String.eqb_neq in Hne.
  assert (Hc := classify_total (f_name f)). unfold classify in Hc.
  assert (Hg := classify_in_get _ _ _ _ _ Hc).
  destruct (ending_of_registered _ Hne) as ([Hin _] & _ & _).
  unfold link_of, link_item.
  set (h := url ++ Urllib.quote (f_name f)). clearbody h.
  revert Hg. generalize (attributes_of (f_name f)). intros a Hg.
  simpl in Hin.
  repeat (destruct Hin as [E|Hin];
          [rewrite <- E in Hg |- *; vm_compute in Hg; inversion Hg; subst a;
           do 4 eexists;
           repeat (split; [reflexivity|]);
           split; [(left; reflexivity) || (right; reflexivity) | discriminate]|]).
  destruct Hin as [E|[]]. congruence.
Qed.

Lemma link_has_href_type_and_rel_witness :
  exists rest children type rel,
    link_of "u/" (mkFile "cover.jpeg" true 0 [] [])
    = Dict "link" None (("href", "u/" ++ Urllib.quote "cover.jpeg") :: rest) children
    /\ dict_get FORMATS (ending_of "cover.jpeg") = Some (mkAttributes rest children)
    /\ dict_get rest "type" = Some type
    /\ dict_get rest "rel" = Some rel
    /\ (rel = ACQUISITION \/ rel = IMAGE)
    /\ type <> "unknown".
Proof.
  apply (link_has_href_type_and_rel "u/" (mkFile "cover.jpeg" true 0 [] [])).
  reflexivity.
Defined.

(** * White space *)

Lemma head_space_inv s r :
  head_space s = Some r ->
  exists w, s = w ++ r /\ w <> ""
            /\ (forall x, head_space (w ++ x) = Some x).
Proof.
  destruct s as [|c1 s1]; [discriminate|]. cbn [head_space].
  destruct (is_space c1) eqn:H1.
  { intros E; inversion E; subst. exists (String c1 "").
    split; [reflexivity|]. split; [discriminate|].
    intros x. cbn [String.append head_space]. now rewrite H1. }
  destruct s1 as [|c2 s2]; [discriminate|].
  destruct (is_space2 c1 c2) eqn:H2.
  { intros E; inversion E; subst. exists (String c1 (String c2 "")).
    split; [reflexivity|]. split; [discriminate|].
    intros x. cbn [String.append head_space]. now rewrite H1, H2. }
  destruct s2 as [|c3 s3]; [discriminate|].
  destruct (is_space3 c1 c2 c3) eqn:H3; [|discriminate].
  intros E; inversion E; subst. exists (String c1 (String c2 (String c3 ""))).
  split; [reflexivity|]. split; [discriminate|].
  intros x. cbn [String.append head_space]. now rewrite H1, H2, H3.
Qed.

Lemma lstrip_eq c1 s1 :
  lstrip (String c1 s1)
  = if is_space c1 then lstrip s1
    else match s1 with
         | String c2 s2 =>
             if is_space2 c1 c2 then lstrip s2
             else match s2 with
                  | String c3 s3 =>
                      if is_space3 c1 c2 c3 then lstrip s3 else String c1 s1
                  | EmptyString => String c1 s1
                  end
         | EmptyString => String c1 s1
         end.
Proof. reflexivity. Qed.

Lemma white_eq c1 s1 :
  white (String c1 s1)
  = if is_space c1 then white s1
    else match s1 with
         | String c2 s2 =>
             if is_space2 c1 c2 then white s2
             else match s2 with
                  | String c3 s3 => is_space3 c1 c2 c3 && white s3
                  | EmptyString => false
                  end
         | EmptyString => false
         end.
Proof. reflexivity. Qed.

Lemma lstrip_head s :
  lstrip s = match head_space s with Some r => lstrip r | None => s end.
Proof.
  destruct s as [|c1 s1]; [reflexivity|]. rewrite lstrip_eq. cbn [head_space].
  destruct (is_space c1); [reflexivity|].
  destruct s1 as [|c2 s2]; [reflexivity|].
  destruct (is_space2 c1 c2); [reflexivity|].
  destruct s2 as [|c3 s3]; [reflexivity|].
  destruct (is_space3 c1 c2 c3); reflexivity.
Qed.

Lemma white_head s :
  white s = match head_space s with
            | Some r => white r
            | None => String.eqb s ""
            end.
Proof.
  destruct s as [|c1 s1]; [reflexivity|]. rewrite white_eq. cbn [head_space].
  destruct (is_space c1); [reflexivity|].
  destruct s1 as [|c2 s2]; [reflexivity|].
  destruct (is_space2 c1 c2); [reflexivity|].
  destruct s2 as [|c3 s3]; [reflexivity|].
  destruct (is_space3 c1 c2 c3); reflexivity.
Qed.

Lemma length_lt_app (w r : string) :
  w <> "" -> String.length r < String.length (w ++ r).
Proof.
  intros H. rewrite length_app. destruct w; [congruence | simpl; lia].
Qed.

(** Induction on a text by taking white-space characters off its head *)
Lemma by_length (P : string -> Prop) :
  (forall s, (forall r, String.length r < String.length s -> P r) -> P s) ->
  forall s, P s.
Proof.
  intros H s. remember (String.length s) as n eqn:E.
  revert s E. induction n as [n IH] using lt_wf_ind. intros s ->.
  apply H. intros r Hr. now apply (IH (String.length r)).
Qed.

Lemma lstrip_split s : exists l, s = l ++ lstrip s /\ white l = true.
Proof.
  induction s as [s IH] using by_length.
  rewrite lstrip_head. destruct (head_space s) as [r|] eqn:H.
  - destruct (head_space_inv _ _ H) as (w & -> & Hw & Hx).
    destruct (IH r (length_lt_app w r Hw)) as (l & Hl & Hwl).
    exists (w ++ l). split.
    + rewrite app_string_assoc. now rewrite <- Hl.
    + now rewrite white_head, Hx.
  - now exists "".
Qed.

Lemma lstrip_no_head s : head_space (lstrip s) = None.
Proof.
  induction s as [s IH] using by_length.
  rewrite lstrip_head. destruct (head_space s) as [r|] eqn:H; [|exact H].
  destruct (head_space_inv _ _ H) as (w & -> & Hw & _).
  apply IH, length_lt_app, Hw.
Qed.

Lemma white_app a b : white a = true -> white (a ++ b) = white b.
Proof.
  induction a as [a IH] using by_length. rewrite (white_head a).
  destruct (head_space a) as [r|] eqn:H.
  - destruct (head_space_inv _ _ H) as (w & -> & Hw & Hx). intros Hr.
    rewrite app_string_assoc, (white_head (w ++ r ++ b)), Hx.
    apply IH; [apply length_lt_app, Hw | exact Hr].
  - intros E. apply String.eqb_eq in E. now subst.
Qed.

Lemma rstrip_split s : exists r, s = rstrip s ++ r /\ white r = true.
Proof.
  induction s as [|c s IH]; [now exists ""|].
  cbn [rstrip]. destruct (white (String c s)) eqn:W.
  - now exists (String c s).
  - destruct IH as (r & Hr & Hw). exists r. split; [|exact Hw].
    cbn [String.append]. now rewrite <- Hr.
Qed.

Lemma rstrip_not_white s : white s = false -> white (rstrip s) = false.
Proof.
  intros W. destruct (rstrip_split s) as (r & Hr & Hw).
  destruct (white (rstrip s)) eqn:E; [|reflexivity].
  rewrite Hr, (white_app _ _ E), Hw in W. discriminate.
Qed.

(** No white space ends [rstrip s]: none of its non-empty suffixes is
    white space only. *)
Lemma rstrip_no_tail s : forall p w,
  rstrip s = p ++ w -> w <> "" -> white w = false.
Proof.
  induction s as [|c s IH]; intros p w E Hw.
  - cbn [rstrip] in E. destruct p; [simpl in E; congruence | discriminate].
  - assert (R := rstrip_not_white (String c s)).
    cbn [rstrip] in E, R. destruct (white (String c s)) eqn:W.
    + destruct p; [simpl in E; congruence | discriminate].
    + destruct p as [|c' p]; cbn [String.append] in E.
      * subst w. now apply R.
      * inversion E; subst. now apply (IH p).
Qed.

Lemma rstrip_no_head s : head_space s = None -> head_space (rstrip s) = None.
Proof.
  intros H. destruct (rstrip_split s) as (r & Hr & _).
  destruct (head_space (rstrip s)) as [x|] eqn:E; [|reflexivity].
  destruct (head_space_inv _ _ E) as (w & Hw & _ & Hx).
  rewrite Hr, Hw, app_string_assoc, Hx in H. discriminate.
Qed.

(** [strip] takes white space, and nothing else, off both ends, and
    leaves none at either end. *)
Lemma strip_spec text :
  exists l r,
    text = l ++ strip text ++ r
    /\ white l = true /\ white r = true
    /\ head_space (strip text) = None
    /\ (forall p w, strip text = p ++ w -> w <> "" -> white w = false).
Proof.
  destruct (lstrip_split text) as (l & Hl & Wl).
  destruct (rstrip_split (lstrip text)) as (r & Hr & Wr).
  exists l, r. unfold strip. split; [now rewrite <- Hr|].
  split; [exact Wl|]. split; [exact Wr|]. split.
  - apply rstrip_no_head, lstrip_no_head.
  - apply rstrip_no_tail.
Qed.

(** X10.  The metadata of an epub has a title, an author and a content
    exactly for the [dc:title], [dc:creator] and [dc:description]
    elements that hold a non-empty text, and nothing else.  Each value
    is the text of the element without the white space around it:
    the text is the value between two runs of white space, and the
    value neither starts nor ends with a white-space character. *)
Theorem epub_metadata_fields f :
  let field key :=
    match dict_get (f_opf_dc f) key with
    | Some text => if String.eqb text "" then None else Some (strip text)
    | None => None
    end in
  dict_get (get_epub_metadata f) "title" = field "title"
  /\ dict_get (get_epub_metadata f) "author" = field "creator"
  /\ dict_get (get_epub_metadata f) "content" = field "description"
  /\ (forall key, key <> "title" -> key <> "author" -> key <> "content" ->
                  dict_get (get_epub_metadata f) key = None)
  /\ (forall text,
        exists l r,
          text = l ++ strip text ++ r
          /\ white l = true /\ white r = true
          /\ head_space (strip text) = None
          /\ (forall p w, strip text = p ++ w -> w <> "" -> white w = false)).
Proof.
  cbv zeta. rewrite <- !and_assoc. split; [|apply strip_spec]. rewrite !and_assoc.
  unfold get_epub_metadata. cbn [fold_left fst snd].
  destruct (dict_get (f_opf_dc f) "title") as [t|];
    destruct (dict_get (f_opf_dc f) "creator") as [a|];
    destruct (dict_get (f_opf_dc f) "description") as [c|];
    try destruct (String.eqb t ""); try destruct (String.eqb a "");
    try destruct (String.eqb c "");
    repeat match goal with
    | |- context [strip ?x] => generalize (strip x); intro
    end;
    (split; [reflexivity|split; [reflexivity|split; [reflexivity|]]]);
    intros key H1 H2 H3;
    match goal with
    | |- dict_get ?m key = None =>
        let m' := eval vm_compute in m in change m with m'
    end;
    cbn [dict_get];
    repeat match goal with
    | |- context [String.eqb ?x key] =>
        destruct (String.eqb_spec x key); [congruence|]
    end; reflexivity.
Qed.

Lemma epub_metadata_fields_witness :
  let nbsp := String (ascii_of_nat 194) (String (ascii_of_nat 160) "") in
  let em_space :=
    String (ascii_of_nat 226) (String (ascii_of_nat 128) (String (ascii_of_nat 131) "")) in
  let f := mkFile "a.epub" true 0 []
             [("title", "  Foo Bar " ++ nbsp);
              ("creator", em_space ++ "Ann" ++ nbsp ++ "Lee" ++ em_space);
              ("description", "")] in
  dict_get (get_epub_metadata f) "title" = Some "Foo Bar"
  /\ dict_get (get_epub_metadata f) "author" = Some ("Ann" ++ nbsp ++ "Lee")
  /\ dict_get (get_epub_metadata f) "content" = None
  /\ dict_get (get_epub_metadata f) "publisher" = None.
Proof.
  intros nbsp em_space f.
  destruct (epub_metadata_fields f) as (H1 & H2 & H3 & H4 & _).
  split; [exact H1|]. split; [exact H2|]. split; [exact H3|].
  apply H4; discriminate.
Defined.

(** * The conversion to XML *)

Lemma item_nested_ind (P : item -> Prop) :
  (forall s, P (Str s)) ->
  (forall n ns a, P (Dict n ns a None)) ->
  (forall n ns a cs, Forall P cs -> P (Dict n ns a (Some cs))) ->
  forall x, P x.
Proof.
  intros HS HN HD. fix IH 1. intros [s|n ns a [cs|]].
  - apply HS.
  - apply HD. revert cs. fix IHcs 1. intros [|c cs].
    + constructor.
    + constructor; [apply IH | apply IHcs].
  - apply HN.
Qed.

Lemma filter_all {A : Type} (p : A -> bool) l :
  List.forallb p l = true -> filter p l = l.
Proof.
  induction l as [|x l IH]; simpl; [reflexivity|]. intros H.
  apply andb_true_iff in H as [Hx Hl]. now rewrite Hx, IH.
Qed.

Lemma count_children cs : forall es,
  Forall2 (fun c e => match c with
                      | Str _ => True
                      | Dict _ _ _ _ => count_elements e = count_dicts c
                      end) (filter is_dict cs) es ->
  list_sum (map count_elements es) = list_sum (map count_dicts cs).
Proof.
  unfold list_sum. induction cs as [|c cs IH]; intros es H.
  - inversion H. reflexivity.
  - destruct c as [s|n ns a ch]; cbn [filter is_dict is_str negb] in H.
    + cbn [map fold_right count_dicts]. now apply IH.
    + inversion H as [|? e ? es' Hp Hrest]; subst.
      cbn [map fold_right]. now rewrite (IH _ Hrest), Hp.
Qed.

Lemma no_mixed_children cs : forall es,
  Forall2 converted (filter is_dict cs) es ->
  List.forallb exclusive cs = true ->
  List.forallb no_mixed_content es = true.
Proof.
  induction cs as [|c cs IH]; intros es H Hall.
  - inversion H. reflexivity.
  - cbn [List.forallb] in Hall. apply andb_true_iff in Hall as [Hc Hall].
    destruct c as [s|n ns a ch]; cbn [filter is_dict is_str negb] in H.
    + now apply IH.
    + inversion H as [|? e ? es' Hp Hrest]; subst.
      cbn [List.forallb]. rewrite (IH _ Hrest Hall).
      destruct Hp as (_ & _ & _ & _ & _ & _ & Hp). now rewrite (Hp Hc).
Qed.

Lemma exclusive_feed_node parser_feed url latest files :
  exclusive (feed_node url latest
               (map (entry_of parser_feed url files) (stems_seen files))) = true.
Proof.
  unfold feed_node. apply exclusive_of_dicts; rewrite forallb_app.
  - apply andb_true_iff; split; [reflexivity|].
    apply forallb_forall. intros x Hx.
    apply in_map_iff in Hx as (s & <- & _). reflexivity.
  - apply andb_true_iff; split; [reflexivity|].
    apply forallb_forall. intros x Hx.
    apply in_map_iff in Hx as (s & <- & _). apply exclusive_entry.
Qed.

Section XmlFacts.

Variable element_ok :
  string -> list (string * string) -> list (option string * string) -> bool.
Variable text_ok : string -> bool.

Lemma for_children_converts cs :
  Forall (fun c => is_dict c = true -> accepted element_ok text_ok c = true ->
                   exists e, dict_to_xml element_ok text_ok c = Some e
                             /\ converted c e) cs ->
  List.forallb (accepted element_ok text_ok) cs = true ->
  forall text acc,
  exists text' es,
    for_children text_ok (dict_to_xml element_ok text_ok) cs text acc
    = Some (text', acc ++ es)%list
    /\ Forall2 converted (filter is_dict cs) es
    /\ (List.forallb is_dict cs = true -> text' = text)
    /\ (List.forallb is_str cs = true -> es = []).
Proof.
  induction 1 as [|c cs Hc Hcs IH]; intros Hok text acc.
  - exists text, []. rewrite app_nil_r. repeat split; constructor.
  - cbn [List.forallb] in Hok. apply andb_true_iff in Hok as [Hokc Hok].
    destruct c as [s|n ns a ch].
    + destruct (IH Hok (Some s) acc) as (t' & es & H1 & H2 & H3 & H4).
      exists t', es. cbn [for_children filter is_dict is_str negb List.forallb].
      cbn [accepted] in Hokc. rewrite Hokc.
      repeat split; auto. discriminate.
    + destruct (Hc eq_refl Hokc) as (e & He & HP).
      destruct (IH Hok text (acc ++ [e])%list) as (t' & es & H1 & H2 & H3 & H4).
      exists t', (e :: es).
      cbn [for_children filter is_dict is_str negb List.forallb].
      rewrite He. cbn [bind]. rewrite H1, <- app_assoc.
      repeat split; auto. discriminate.
Qed.

Lemma for_children_refuses cs :
  Forall (fun c => is_dict c = true -> accepted element_ok text_ok c = false ->
                   dict_to_xml element_ok text_ok c = None) cs ->
  List.forallb (accepted element_ok text_ok) cs = false ->
  forall text acc,
    for_children text_ok (dict_to_xml element_ok text_ok) cs text acc = None.
Proof.
  induction 1 as [|c cs Hc Hcs IH]; intros Hok text acc; [discriminate|].
  cbn [List.forallb] in Hok. destruct c as [s|n ns a ch]; cbn [for_children].
  - cbn [accepted] in Hok.
    destruct (text_ok s); [|reflexivity]. now apply IH.
  - destruct (accepted element_ok text_ok (Dict n ns a ch)) eqn:E.
    + destruct (dict_to_xml element_ok text_ok (Dict n ns a ch)); [|reflexivity].
      cbn [bind]. now apply IH.
    + now rewrite (Hc eq_refl eq_refl).
Qed.

(** [dict_to_xml] succeeds on a dict exactly when the checks pass, and
    this is what it keeps. *)
Lemma dict_to_xml_converted d :
  is_dict d = true ->
  (accepted element_ok text_ok d = true ->
   exists e, dict_to_xml element_ok text_ok d = Some e /\ converted d e)
  /\ (accepted element_ok text_ok d = false ->
      dict_to_xml element_ok text_ok d = None).
Proof.
  induction d as [s|n ns a|n ns a cs IH] using item_nested_ind; intros Hd.
  - discriminate.
  - cbn [dict_to_xml accepted]. rewrite andb_true_r.
    split; intros E; rewrite E; [|reflexivity].
    eexists. split; [reflexivity|]. repeat split.
  - cbn [dict_to_xml accepted].
    destruct (element_ok n a _) eqn:Eo; cbn [andb].
    2:{ split; [discriminate | reflexivity]. }
    split; intros Hcs.
    + assert (IH1 : Forall (fun c => is_dict c = true ->
                                     accepted element_ok text_ok c = true ->
                                     exists e, dict_to_xml element_ok text_ok c = Some e
                                               /\ converted c e) cs).
      { eapply Forall_impl; [|exact IH]. intros c Hc H1 H2. now apply Hc. }
      destruct (for_children_converts cs IH1 Hcs None [])
        as (t & es & H1 & H2 & H3 & H4).
      rewrite H1. cbn [bind fst snd List.app].
      eexists. split; [reflexivity|].
      split; [reflexivity|]. split; [reflexivity|]. split; [reflexivity|].
      split; [|split; [|split]].
      * cbn [element_children]. symmetry. eapply Forall2_length, H2.
      * exact H3.
      * cbn [count_elements count_dicts]. f_equal.
        apply count_children. eapply Forall2_impl; [|exact H2].
        intros c e Hp. destruct c; [exact I|]. apply Hp.
      * rewrite exclusive_Dict. intros Hex.
        apply andb_true_iff in Hex as [Hkind Hall].
        cbn [no_mixed_content]. apply andb_true_iff. split.
        -- apply orb_true_iff in Hkind as [Hs|Hd'].
           ++ rewrite (H4 Hs). now destruct t.
           ++ now rewrite (H3 Hd').
        -- exact (no_mixed_children cs es H2 Hall).
    + assert (IH2 : Forall (fun c => is_dict c = true ->
                                     accepted element_ok text_ok c = false ->
                                     dict_to_xml element_ok text_ok c = None) cs).
      { eapply Forall_impl; [|exact IH]. intros c Hc H1 H2. now apply Hc. }
      pose proof (for_children_refuses cs IH2 Hcs None []) as H1.
      now rewrite H1.
Qed.



End XmlFacts.



(** * The feed and the order of the listing *)

Lemma sorted_recognised directory :
  sorted (filter recognised directory) = filter recognised (sorted directory).
Proof. symmetry. apply filter_sorted. Qed.

Lemma In_sorted f directory : In f (sorted directory) <-> In f directory.
Proof.
  split; apply Permutation_in;
    [apply sorted_permutation | symmetry; apply sorted_permutation].
Qed.

Lemma In_recognised_sorted f directory :
  In f (filter recognised (sorted directory))
  <-> In f directory /\ recognised f = true.
Proof. rewrite filter_In, In_sorted. reflexivity. Qed.



(** C5, as stated, fails for [make_tree]: no reordering of the listing
    of a directory (its names are pairwise different) changes the tree,
    since the listing is sorted before the loop. *)
Lemma listing_order_never_changes_the_tree :
  ~ (exists parser_feed directory directory' url tree tree' log log',
        NoDup (map f_name directory)
        /\ Permutation directory directory'
        /\ make_tree parser_feed directory url = Some (tree, log)
        /\ make_tree parser_feed directory' url = Some (tree', log')
        /\ tree <> tree').
Proof.
  intros (p & d & d' & url & t & t' & l & l' & Hnd & Hp & H1 & H2 & Hne).
  assert (E : sorted d = sorted d').
  { apply ascending_unique; try apply sorted_ascending.
    - eapply Permutation_trans; [apply sorted_permutation|].
      eapply Permutation_trans; [exact Hp|]. symmetry. apply sorted_permutation.
    - eapply Permutation_NoDup; [|exact Hnd].
      apply Permutation_map. symmetry. apply sorted_permutation. }
  unfold make_tree in H1, H2. rewrite E in H1. rewrite H1 in H2.
  injection H2 as H2 _. now apply Hne.
Qed.

(** C5.  Under any reordering of the files the greatest timestamp of a
    book and its links as a collection stay the same.  The feed lists
    the books in the order their stems are first seen and each book's
    links in the order of its files, where the order is that of the
    listing sorted by name, which is the order the loop processes: a
    later file adds its link (and, for a new stem, its entry) last.
    The loop run on the same files in another order can give another
    tree; [make_tree] sorts first, so the order in which a directory
    yields its files changes nothing. *)
Theorem grouping_follows_sorted_order parser_feed url :
  (forall files files',
      Permutation files files' ->
      forall stem,
        max_timestamp (group stem files) = max_timestamp (group stem files')
        /\ Permutation (links_of url stem files) (links_of url stem files'))
  /\ (forall directory,
        let files := sorted directory in
        ascending files /\ Permutation files directory
        /\ make_tree parser_feed directory url = build_feed parser_feed files url
        /\ exists latest log,
             build_feed parser_feed files url
             = Some (feed_node url latest
                       (map (fun stem =>
                               Dict "entry" None []
                                 (Some (List.app (entry_head parser_feed url stem files)
                                                 (map (link_of url) (group stem files)))))
                            (stems_seen files)),
                     log))
  /\ (forall files f,
        recognised f = true ->
        links_of url (stem_of (f_name f)) (files ++ [f])
        = (links_of url (stem_of (f_name f)) files ++ [link_of url f])%list
        /\ stems_seen (files ++ [f])
           = if mem (stem_of (f_name f)) (stems_seen files)
             then stems_seen files
             else (stems_seen files ++ [stem_of (f_name f)])%list)
  /\ (exists files files' tree tree' log log',
        Permutation files files'
        /\ NoDup (map f_name files)
        /\ build_feed parser_feed files url = Some (tree, log)
        /\ build_feed parser_feed files' url = Some (tree', log')
        /\ tree <> tree')
  /\ (forall directory directory',
        NoDup (map f_name directory) ->
        Permutation directory directory' ->
        make_tree parser_feed directory url = make_tree parser_feed directory' url).
Proof.
  split; [|split; [|split; [|split]]].
  - intros files files' Hp stem. split.
    + apply max_timestamp_permutation, group_permutation, Hp.
    + unfold links_of. apply Permutation_map, group_permutation, Hp.
  - intros directory files.
    split; [apply sorted_ascending|]. split; [apply sorted_permutation|].
    split; [reflexivity|].
    rewrite build_feed_closed. do 2 eexists. reflexivity.
  - intros files f Hr. split.
    + unfold links_of. now rewrite group_same, map_app.
    + rewrite stems_seen_app, Hr. simpl.
      now destruct (mem (stem_of (f_name f)) (stems_seen files)).
  - exists [mkFile "a.txt" true 0 [] []; mkFile "b.txt" true 0 [] []],
           [mkFile "b.txt" true 0 [] []; mkFile "a.txt" true 0 [] []].
    do 4 eexists.
    split; [apply perm_swap|].
    split; [repeat constructor; simpl; intuition discriminate|].
    split; [apply build_feed_closed|]. split; [apply build_feed_closed|].
    intros H. vm_compute in H. discriminate H.
  - intros d d' Hnd Hp. unfold make_tree. f_equal.
    apply ascending_unique; try apply sorted_ascending.
    + eapply Permutation_trans; [apply sorted_permutation|].
      eapply Permutation_trans; [exact Hp|]. symmetry. apply sorted_permutation.
    + eapply Permutation_NoDup; [|exact Hnd].
      apply Permutation_map. symmetry. apply sorted_permutation.
Qed.

Lemma grouping_follows_sorted_order_witness :
  let a := mkFile "book.epub" true 1577836800000000 [] [] in
  let b := mkFile "book.pdf" true 1577836801000000 [] [] in
  let c := mkFile "atlas.txt" true 1577836802000000 [] [] in
  (max_timestamp (group "book" [a; b; c]) = max_timestamp (group "book" [c; b; a])
   /\ Permutation (links_of "u/" "book" [a; b; c]) (links_of "u/" "book" [c; b; a]))
  /\ links_of "u/" "book" [a; b] = [link_of "u/" a; link_of "u/" b]
  /\ stems_seen [c; a; b] = ["atlas"; "book"]
  /\ make_tree parser_feed0 [a; b; c] "u/" = make_tree parser_feed0 [c; b; a] "u/"
  /\ make_tree parser_feed0 [b; c; a] "u/" = build_feed parser_feed0 [c; a; b] "u/".
Proof.
  intros a b c.
  destruct (grouping_follows_sorted_order parser_feed0 "u/")
    as (H1 & H2 & H3 & _ & H5).
  split; [|split; [|split; [|split]]].
  - apply (H1 [a; b; c] [c; b; a]). apply Permutation_rev with (l := [a; b; c]).
  - exact (proj1 (H3 [a] b eq_refl)).
  - exact (proj2 (H3 [c; a] b eq_refl)).
  - apply H5.
    + repeat constructor; simpl; intuition discriminate.
    + apply Permutation_rev with (l := [a; b; c]).
  - exact (proj1 (proj2 (proj2 (H2 [b; c; a])))).
Defined.

(** * The book of the empty stem *)

Lemma group_In stem files h :
  In h (group stem files)
  <-> In h files /\ recognised h = true /\ stem_of (f_name h) = stem.
Proof.
  unfold group. rewrite filter_In, andb_true_iff, String.eqb_eq. reflexivity.
Qed.

Lemma recognised_ending f : recognised f = true -> ending_of (f_name f) <> "".
Proof.
  unfold recognised. intros H. apply andb_true_iff in H as [_ H].
  apply negb_true_iff in H. now apply String.eqb_neq.
Qed.

Lemma empty_stem_whole_name f :
  recognised f = true -> stem_of (f_name f) = "" -> registered (f_name f).
Proof.
  intros Hr Hs.
  destruct (ending_of_registered (f_name f) (recognised_ending f Hr))
    as (Hreg & _ & Hname).
  rewrite Hs in Hname. simpl in Hname. now rewrite <- Hname.
Qed.

(** C10.  A regular file whose whole name is a registered suffix is
    classified under that suffix with the empty stem and is not
    skipped: nothing is printed for it, and the feed has exactly one
    entry for the empty stem, with an id no other entry has.  The files
    of that book are exactly the regular files of the directory whose
    whole name is a registered suffix: the file is one of them and
    belongs to no other book, and no file of another book is among
    them.  The entry holds the id of the empty stem, the timestamp of
    one of these files, the title (the empty stem unless a file gives
    one), the author and the content, and the links of these files,
    the link of the file among them.  Alone in the directory and
    without metadata the file gives an entry with its own timestamp,
    the empty title, the author "Unknown", an empty content and its
    link. *)
Theorem empty_stem_is_a_group parser_feed directory url f :
  In f directory -> f_is_file f = true -> registered (f_name f) ->
  classify (f_name f) = Some (f_name f, attributes_of (f_name f), "")
  /\ (let files := sorted directory in
      exists latest log,
        make_tree parser_feed directory url
        = Some (feed_node url latest
                  (map (entry_of parser_feed url files) (stems_seen files)), log)
        /\ In "" (stems_seen files) /\ NoDup (stems_seen files)
        /\ In f (group "" files)
        /\ In (link_of url f) (links_of url "" files)
        /\ ~ In (diagnostic f) log
        /\ (exists before after,
              stems_seen files = (before ++ "" :: after)%list
              /\ ~ In "" before /\ ~ In "" after)
        /\ (forall h, In h (group "" files)
                      <-> In h directory /\ f_is_file h = true
                          /\ registered (f_name h))
        /\ (forall stem, stem <> "" ->
              ~ In f (group stem files)
              /\ url ++ Urllib.quote stem <> url ++ Urllib.quote ""
              /\ forall h, In h (group stem files) -> ~ In h (group "" files))
        /\ entry_of parser_feed url files ""
           = Dict "entry" None []
               (Some (text_item "id" (url ++ Urllib.quote "")
                      :: text_item "updated" (max_timestamp (group "" files))
                      :: text_item "title" (last_write "title" "" (group "" files))
                      :: Dict "author" None []
                           (Some [text_item "name"
                                    (last_write "author" "Unknown" (group "" files))])
                      :: Dict "content" None [("type", "text")]
                           (Some [Str (filter_html parser_feed
                                         (last_write "content" "" (group "" files)))])
                      :: map (link_of url) (group "" files)))
        /\ (exists h, In h (group "" files)
                      /\ max_timestamp (group "" files) = timestamp h)
        /\ ((forall h, In h (group "" files) -> extract_metadata h = []) ->
            last_write "title" "" (group "" files) = ""
            /\ last_write "author" "Unknown" (group "" files) = "Unknown"
            /\ last_write "content" "" (group "" files) = ""))
  /\ (extract_metadata f = [] ->
      make_tree parser_feed [f] url
      = Some (feed_node url (timestamp f)
                [Dict "entry" None []
                   (Some [ text_item "id" (url ++ Urllib.quote "");
                           text_item "updated" (timestamp f);
                           text_item "title" "";
                           Dict "author" None [] (Some [text_item "name" "Unknown"]);
                           Dict "content" None [("type", "text")] (Some [Str ""]);
                           link_of url f ])],
              [])).
Proof.
  intros Hin Hfile Hreg.
  destruct (recognised_whole_name f Hfile Hreg) as [Hr Hstem].
  split; [now apply classify_whole_name|]. split.
  - intros files. rewrite make_tree_closed. do 2 eexists.
    split; [reflexivity|].
    assert (Hf : In f files) by now apply In_sorted.
    assert (Hg : In f (group "" files)) by now apply group_In.
    assert (Hs : In "" (stems_seen files)).
    { apply stems_seen_In. now exists f. }
    split; [exact Hs|].
    split; [apply stems_seen_NoDup|].
    split; [exact Hg|].
    split; [unfold links_of; now apply in_map|].
    split.
    { intros Hd. apply in_map_iff in Hd as (g & Hd & Hgin).
      apply filter_In in Hgin as [_ Hu].
      unfold diagnostic in Hd. apply app_inv_head_string in Hd.
      unfold unrecognised in Hu. apply andb_true_iff in Hu as [_ Hu].
      apply String.eqb_eq in Hu. rewrite Hd in Hu.
      now apply (recognised_ending f Hr). }
    split.
    { destruct (in_split _ _ Hs) as (before & after & E).
      exists before, after. split; [exact E|].
      pose proof (stems_seen_NoDup files) as Hnd. rewrite E in Hnd.
      apply NoDup_remove_2 in Hnd.
      split; intros H; apply Hnd, in_or_app; auto. }
    split.
    { intros h. rewrite group_In. unfold files. rewrite In_sorted. split.
      - intros (Hh & Hrh & Hsh). split; [exact Hh|].
        split; [now apply recognised_is_file|].
        now apply empty_stem_whole_name.
      - intros (Hh & Hfh & Hregh).
        destruct (recognised_whole_name h Hfh Hregh) as [Hrh Hsh]. auto. }
    split.
    { intros stem Hne. split; [|split].
      - intros H. apply group_In in H as (_ & _ & H). congruence.
      - intros H. apply quoted_url_injective in H. contradiction.
      - intros h Hh H0. apply group_In in Hh as (_ & _ & Hh).
        apply group_In in H0 as (_ & _ & H0). congruence. }
    split; [reflexivity|].
    split.
    { assert (Hne : group "" files <> []).
      { intros E. now rewrite E in Hg. }
      apply max_timestamp_In in Hne. apply in_map_iff in Hne as (h & Hh & Hhin).
      now exists h. }
    intros Hmeta.
    repeat split; apply last_write_default; intros h Hh;
      now rewrite (Hmeta h Hh).
  - intros Hmeta. rewrite make_tree_closed.
    assert (Hu : unrecognised f = false).
    { apply negb_true_iff. now apply recognised_not_unrecognised. }
    assert (Hk : stems_seen [f] = [""]).
    { unfold stems_seen. simpl. now rewrite Hr, Hstem. }
    assert (Hg : group "" [f] = [f]).
    { unfold group. simpl. now rewrite Hr, Hstem. }
    simpl sorted. simpl filter. rewrite Hr, Hu, Hk.
    unfold max_timestamp. simpl fold_left. rewrite max_empty_l. simpl map.
    unfold entry_of, entry_head, links_of, last_write. rewrite Hg. simpl.
    rewrite Hmeta. unfold max_timestamp. simpl. rewrite max_empty_l. reflexivity.
Qed.

Lemma empty_stem_is_a_group_witness :
  let f := mkFile ".epub" true 1577836800000000 [] [] in
  let g := mkFile "book.epub" true 1577836800000000 [] [] in
  let h := mkFile ".txt" true 1577836801000000 [] [] in
  let url := "https://myoung.uk/ebooks/" in
  let files := sorted [g; f; h] in
  classify ".epub" = Some (".epub", attributes_of ".epub", "")
  /\ In "" (stems_seen files)
  /\ In f (group "" files)
  /\ In h (group "" files)
  /\ ~ In g (group "" files)
  /\ ~ In f (group "book" files)
  /\ In (link_of url f) (links_of url "" files)
  /\ last_write "title" "" (group "" files) = ""
  /\ make_tree parser_feed0 [f] url
     = Some (feed_node url "2020-01-01T00:00:00Z"
               [Dict "entry" None []
                  (Some [ text_item "id" url;
                          text_item "updated" "2020-01-01T00:00:00Z";
                          text_item "title" "";
                          Dict "author" None [] (Some [text_item "name" "Unknown"]);
                          Dict "content" None [("type", "text")] (Some [Str ""]);
                          Dict "link" None
                               [("href", "https://myoung.uk/ebooks/.epub");
                                ("title", "Compatible epub");
                                ("type", "application/epub+zip");
                                ("rel", ACQUISITION)]
                               (Some [Str "All devices and apps except Kindles and Kobos"])
                        ])],
             []).
Proof.
  intros f g h url files.
  assert (Hreg : registered (f_name f)).
  { split; [simpl; tauto | discriminate]. }
  destruct (empty_stem_is_a_group parser_feed0 [g; f; h] url f
              (or_intror (or_introl eq_refl)) eq_refl Hreg)
    as (H1 & (latest & log & _ & H2 & _ & H3 & H4 & _ & _ & H5 & H6 & _ & _ & H7)
        & H8).
  split; [exact H1|]. split; [exact H2|]. split; [exact H3|].
  split.
  { apply H5. split; [simpl; tauto|]. split; [reflexivity|].
    split; [simpl; tauto | discriminate]. }
  split.
  { intros Hg. apply H5 in Hg as (_ & _ & [Hg _]).
    simpl in Hg. repeat (destruct Hg as [Hg|Hg]; [discriminate Hg|]).
    exact Hg. }
  split; [apply (H6 "book"); discriminate|].
  split; [exact H4|].
  split.
  { apply H7. intros x Hx. apply H5 in Hx as ([<-|[<-|[<-|[]]]] & _ & _);
      reflexivity. }
  assert (E : make_tree parser_feed0 [f] url = _) by exact (H8 eq_refl).
  rewrite E. vm_compute. reflexivity.
Defined.
